(** * Radiometric self-calibration (notebooks/ImageCalibration.ipynb)

    A shallow embedding of the calibration notebook: irradiance prediction
    ([calc_E]), pooled residuals ([pool], [calc_e]), the forward model and
    its objective ([calc_F], [calc_total_F_error], [calc_gradients]), the
    outer loop and the inference-time [calibrate].

    Numbers.  The notebook computes in float64.  The embedding keeps the
    exceptional values of that arithmetic (both infinities and NaN, so that
    a quotient by zero is what NumPy returns) and idealises the finite ones
    as exact rationals: rounding and the sign of zero are not modelled.

    Failures.  Every Python exception the embedded code can raise is a
    constructor of [exn]; a computation that can raise returns a [result]. *)

From Stdlib Require Import List ZArith QArith Qcanon Lia Bool Arith Sorted.
Import ListNotations.

Set Implicit Arguments.

(* ------------------------------------------------------------------ *)
(** ** Floating-point values *)

Inductive fval : Type :=
| Fin (q : Qc)
| PInf
| NInf
| NaN.

Definition QcZ (z : Z) : Qc := Q2Qc (inject_Z z).

(** A sample holding the integer code [c], as the frame loaders store it. *)
Definition code (c : nat) : fval := Fin (QcZ (Z.of_nat c)).

Definition Qc_zerob (q : Qc) : bool := (Qnum q =? 0)%Z.
Definition Qc_ltb (x y : Qc) : bool := negb (Qle_bool y x).

(** Sign of a value that is not NaN: -1, 0 or 1. *)
Definition fsgn (x : fval) : Z :=
  match x with
  | Fin q => Z.sgn (Qnum q)
  | PInf => 1
  | NInf => -1
  | NaN => 0
  end.

(** The infinity of a given sign; a zero sign stands for an invalid
    operation (0 * inf, 0 / 0) and gives NaN. *)
Definition inf_of_sign (s : Z) : fval :=
  match s with
  | Zpos _ => PInf
  | Zneg _ => NInf
  | Z0 => NaN
  end.

Definition fneg (x : fval) : fval :=
  match x with
  | Fin q => Fin (- q)
  | PInf => NInf
  | NInf => PInf
  | NaN => NaN
  end.

Definition fadd (x y : fval) : fval :=
  match x, y with
  | Fin p, Fin q => Fin (p + q)
  | NaN, _ | _, NaN => NaN
  | PInf, NInf | NInf, PInf => NaN
  | PInf, _ | _, PInf => PInf
  | NInf, _ | _, NInf => NInf
  end.

Definition fsub (x y : fval) : fval := fadd x (fneg y).

Definition fmul (x y : fval) : fval :=
  match x, y with
  | Fin p, Fin q => Fin (p * q)
  | NaN, _ | _, NaN => NaN
  | _, _ => inf_of_sign (fsgn x * fsgn y)
  end.

(** NumPy's true division: a finite quotient by zero is an infinity of the
    numerator's sign (NaN for 0 / 0) and raises nothing. *)
Definition fdiv (x y : fval) : fval :=
  match x, y with
  | NaN, _ | _, NaN => NaN
  | Fin p, Fin q => if Qc_zerob q then inf_of_sign (fsgn x) else Fin (p / q)
  | Fin _, _ => Fin 0
  | _, Fin q => inf_of_sign (fsgn x * (if Qc_zerob q then 1 else fsgn y))
  | _, _ => NaN
  end.

Definition fabs (x : fval) : fval :=
  match x with
  | Fin q => Fin (if Qc_ltb q 0 then - q else q)
  | PInf | NInf => PInf
  | NaN => NaN
  end.

(** [x < y]; false as soon as an operand is NaN. *)
Definition flt (x y : fval) : bool :=
  match x, y with
  | NaN, _ | _, NaN => false
  | Fin p, Fin q => Qc_ltb p q
  | NInf, NInf | PInf, _ | _, NInf => false
  | _, _ => true
  end.

Definition fle (x y : fval) : bool := negb (flt y x).

Definition is_nan (x : fval) : bool :=
  match x with NaN => true | _ => false end.

Definition is_fin (x : fval) : Prop :=
  match x with Fin _ => True | _ => False end.

(** [sum] of Python and [np.sum]: a left-to-right accumulation from 0. *)
Definition fsum (l : list fval) : fval := fold_left fadd l (Fin 0).

Definition Qcsum (l : list Qc) : Qc := fold_left Qcplus l 0%Qc.

(* ------------------------------------------------------------------ *)
(** ** Exceptions *)

Inductive exn : Type :=
| IndexError
| ValueError
| OverflowError
| TypeError
| AttributeError
| NameError.

Inductive result (A : Type) : Type :=
| Ok (v : A)
| Raise (x : exn).

Arguments Ok {A} v.
Arguments Raise {A} x.

Definition bind {A B} (r : result A) (k : A -> result B) : result B :=
  match r with
  | Ok v => k v
  | Raise x => Raise x
  end.

Declare Scope py_scope.
Delimit Scope py_scope with py.
Notation "x <- r ;; k" := (bind r (fun x => k))
  (at level 61, r at next level, right associativity) : py_scope.
Open Scope py_scope.

(** Running [f] over a list from left to right, stopping at the first
    exception: a list comprehension, or the task list of [Parallel]. *)
Fixpoint mapM {A B} (f : A -> result B) (l : list A) : result (list B) :=
  match l with
  | [] => Ok []
  | x :: t => y <- f x ;; ys <- mapM f t ;; Ok (y :: ys)
  end.

(* ------------------------------------------------------------------ *)
(** ** Sequences and arrays *)

(** [l[i]] for an index produced by [range]. *)
Definition getitem {A} (l : list A) (i : nat) : result A :=
  match nth_error l i with
  | Some v => Ok v
  | None => Raise IndexError
  end.

(** [l[i]] for an arbitrary integer: a negative index counts from the end. *)
Definition getitem_int {A} (l : list A) (i : Z) : result A :=
  let n := Z.of_nat (length l) in
  if (0 <=? i)%Z then getitem l (Z.to_nat i)
  else if (- n <=? i)%Z then getitem l (Z.to_nat (n + i))
  else Raise IndexError.

(** [int(x)]: truncation toward zero. *)
Definition py_int (x : fval) : result Z :=
  match x with
  | Fin q => Ok (Z.quot (Qnum q) (Zpos (Qden q)))
  | PInf | NInf => Raise OverflowError
  | NaN => Raise ValueError
  end.

(** [np.vectorize(f)(xs)] with [otypes] unset: [f] is first called on the
    first element to find the output type, which NumPy refuses to do on an
    input of size 0 (ValueError); then [f] runs over all elements.  The
    outputs are stored as they are, which is what NumPy does when they are
    of one type: entries of a float64 array, or the ints of the curve of
    the first cell.  [apply_g_list] follows the output type on a Python
    list that mixes ints and floats. *)
Definition vectorize {A B} (f : A -> result B) (xs : list A) : result (list B) :=
  match xs with
  | [] => Raise ValueError
  | _ :: _ => mapM f xs
  end.

(** A value that takes part in broadcasting: a scalar or a 1-d array. *)
Inductive nd : Type :=
| Sc (x : fval)
| Ar (l : list fval).

Fixpoint zip_with {A B C} (f : A -> B -> C) (l : list A) (m : list B) : list C :=
  match l, m with
  | x :: l', y :: m' => f x y :: zip_with f l' m'
  | _, _ => []
  end.

(** A binary ufunc on two 1-d arrays: equal lengths, or one of length 1. *)
Definition arr_map2 (f : fval -> fval -> fval) (l m : list fval)
  : result (list fval) :=
  if length l =? length m then Ok (zip_with f l m)
  else match l, m with
       | [x], _ => Ok (map (f x) m)
       | _, [y] => Ok (map (fun x => f x y) l)
       | _, _ => Raise ValueError
       end.

Definition nd_map2 (f : fval -> fval -> fval) (x y : nd) : result nd :=
  match x, y with
  | Sc u, Sc v => Ok (Sc (f u v))
  | Sc u, Ar m => Ok (Ar (map (f u) m))
  | Ar l, Sc v => Ok (Ar (map (fun u => f u v) l))
  | Ar l, Ar m => r <- arr_map2 f l m ;; Ok (Ar r)
  end.

(** Python's [sum(results)]: [0 + r0 + r1 + ...]. *)
Fixpoint py_sum_from (acc : nd) (results : list nd) : result nd :=
  match results with
  | [] => Ok acc
  | r :: rest => acc' <- nd_map2 fadd acc r ;; py_sum_from acc' rest
  end.

Definition py_sum (results : list nd) : result nd :=
  py_sum_from (Sc (Fin 0)) results.

(** [x[:]]; the only scalar that reaches it is the integer 0 of an empty
    [sum], which is not subscriptable. *)
Definition nd_all (x : nd) : result (list fval) :=
  match x with
  | Sc _ => Raise TypeError
  | Ar l => Ok l
  end.

(** [np.mean]: the sum over the count (0 / 0 = NaN on an empty input). *)
Definition np_mean (l : list fval) : fval :=
  fdiv (fsum l) (Fin (QcZ (Z.of_nat (length l)))).

Fixpoint insert_sorted (x : fval) (l : list fval) : list fval :=
  match l with
  | [] => [x]
  | y :: t => if fle x y then x :: y :: t else y :: insert_sorted x t
  end.

Definition np_sort (l : list fval) : list fval :=
  fold_right insert_sorted [] l.

(** [np.median]: NaN if the input is empty or holds a NaN, otherwise the
    mean of the middle element(s) of the sorted input. *)
Definition np_median (l : list fval) : fval :=
  if existsb is_nan l then NaN
  else
    let s := np_sort l in
    let n := length l in
    if Nat.even n
    then np_mean (firstn 2 (skipn (n / 2 - 1) s))
    else np_mean (firstn 1 (skipn (n / 2) s)).

(** Positions of the true entries of a mask: [mask.nonzero()]. *)
Fixpoint nonzero_from (i : nat) (mask : list bool) : list nat :=
  match mask with
  | [] => []
  | m :: t => if m then i :: nonzero_from (S i) t else nonzero_from (S i) t
  end.

Definition nonzero (mask : list bool) : list nat := nonzero_from 0 mask.

(** [col[i] = v]. *)
Fixpoint list_set {A} (l : list A) (i : nat) (v : A) : list A :=
  match l, i with
  | [], _ => []
  | _ :: t, O => v :: t
  | x :: t, S i' => x :: list_set t i' v
  end.

Definition setitem {A} (l : list A) (i : nat) (v : A) : result (list A) :=
  if i <? length l then Ok (list_set l i v) else Raise IndexError.

(** [buf[:] = vals] on a buffer of [n] entries: the lengths agree, or a
    single value is broadcast. *)
Definition assign_all (n : nat) (vals : list fval) : result (list fval) :=
  if length vals =? n then Ok vals
  else match vals with
       | [v] => Ok (repeat v n)
       | _ => Raise ValueError
       end.

Definition nd_map (f : fval -> fval) (x : nd) : nd :=
  match x with
  | Sc u => Sc (f u)
  | Ar l => Ar (map f l)
  end.

(** A binary ufunc whose right operand is a 1-d array: the result is one. *)
Definition nd_bcast (f : fval -> fval -> fval) (x : nd) (m : list fval)
  : result (list fval) :=
  match x with
  | Sc u => Ok (map (f u) m)
  | Ar l => arr_map2 f l m
  end.

(** [total += x] with an array [x]: an integer [total] is rebound to the
    sum; an array is updated in place and keeps its own shape. *)
Definition nd_iadd (total : nd) (x : list fval) : result (list fval) :=
  match total with
  | Sc u => Ok (map (fadd u) x)
  | Ar l =>
      if length l =? length x then Ok (zip_with fadd l x)
      else match x with
           | [v] => Ok (map (fun u => fadd u v) l)
           | _ => Raise ValueError
           end
  end.

(** [results.sum()] after [sum(results)]: the integer 0 of an empty [sum]
    has no such method. *)
Definition nd_sum (x : nd) : result fval :=
  match x with
  | Sc _ => Raise AttributeError
  | Ar l => Ok (fsum l)
  end.

(* ------------------------------------------------------------------ *)
(** ** The response curve lookup *)

(** [g[int(x)]], the body of [g_func] and of [apply_g]. *)
Definition g_lookup (g : list fval) (x : fval) : result fval :=
  i <- py_int x ;; getitem_int g i.

(** [g_func = np.vectorize(g_func)], reading the global curve [g]. *)
Definition g_func (g : list fval) (xs : list fval) : result (list fval) :=
  vectorize (g_lookup g) xs.

(** The curve of the first cell: [g = [i for i in range(256)]]. *)
Definition identity_curve : list fval := map code (seq 0 256).

(* ------------------------------------------------------------------ *)
(** ** Inference: [calibrate] *)

(** [(apply_g(img) - b) / a]; [a] and [b] are scalars or arrays. *)
Definition calibrate (img : list fval) (a b : nd) (g : list fval) : result nd :=
  gs <- vectorize (g_lookup g) img ;;
  t <- nd_map2 fsub (Ar gs) b ;;
  nd_map2 fdiv t a.

(* ------------------------------------------------------------------ *)
(** ** The calibration algorithm *)

Definition pixel : Type := (fval * fval * fval)%type.

(** Channel 1 of a pixel: [data[:, :, 1]]. *)
Definition green (px : pixel) : fval := snd (fst px).

Definition c1265 : Qc := Q2Qc (1265 # 1000).
Definition LEARN_RATE : fval := Fin (Q2Qc (1 # 10)).
Definition NUM_LEARNING_ITERATIONS : nat := 10.

(** [pool(data, k, z, eps)]: positions of frame [k] whose sample differs
    from [z] by less than [eps].  The notebook returns the one-element
    tuple of [mask.nonzero()]; the embedding returns its index array. *)
Definition pool (data : list (list fval)) (k : nat) (z : fval) (eps : fval)
  : result (list nat) :=
  image <- getitem data k ;;
  Ok (nonzero (map (fun x => flt (fabs (fsub x z)) eps) image)).

(** The globals the loop assigns.  [e], [median_errors], [green_channel],
    [da], [db] and [dg] are unbound until the first iteration assigns
    them, and nothing reads them before. *)
Record state : Type := mkState {
  st_a : list fval;
  st_b : list fval;
  st_g : list fval;
  st_E : nd;
  st_w : list fval;
  st_sigma : list fval;
  st_e : list (list fval);
  st_median_errors : list fval;
  st_green_channel : list (list fval);
  st_da : list fval;
  st_db : list fval;
  st_dg : list fval
}.

Definition set_a v s := mkState v (st_b s) (st_g s) (st_E s) (st_w s)
  (st_sigma s) (st_e s) (st_median_errors s) (st_green_channel s)
  (st_da s) (st_db s) (st_dg s).
Definition set_b v s := mkState (st_a s) v (st_g s) (st_E s) (st_w s)
  (st_sigma s) (st_e s) (st_median_errors s) (st_green_channel s)
  (st_da s) (st_db s) (st_dg s).
Definition set_g v s := mkState (st_a s) (st_b s) v (st_E s) (st_w s)
  (st_sigma s) (st_e s) (st_median_errors s) (st_green_channel s)
  (st_da s) (st_db s) (st_dg s).
Definition set_E v s := mkState (st_a s) (st_b s) (st_g s) v (st_w s)
  (st_sigma s) (st_e s) (st_median_errors s) (st_green_channel s)
  (st_da s) (st_db s) (st_dg s).
Definition set_w v s := mkState (st_a s) (st_b s) (st_g s) (st_E s) v
  (st_sigma s) (st_e s) (st_median_errors s) (st_green_channel s)
  (st_da s) (st_db s) (st_dg s).
Definition set_sigma v s := mkState (st_a s) (st_b s) (st_g s) (st_E s)
  (st_w s) v (st_e s) (st_median_errors s) (st_green_channel s)
  (st_da s) (st_db s) (st_dg s).
Definition set_e v s := mkState (st_a s) (st_b s) (st_g s) (st_E s)
  (st_w s) (st_sigma s) v (st_median_errors s) (st_green_channel s)
  (st_da s) (st_db s) (st_dg s).
Definition set_median_errors v s := mkState (st_a s) (st_b s) (st_g s)
  (st_E s) (st_w s) (st_sigma s) (st_e s) v (st_green_channel s)
  (st_da s) (st_db s) (st_dg s).
Definition set_green_channel v s := mkState (st_a s) (st_b s) (st_g s)
  (st_E s) (st_w s) (st_sigma s) (st_e s) (st_median_errors s) v
  (st_da s) (st_db s) (st_dg s).
Definition set_deltas (d : list fval * list fval * list fval) s :=
  mkState (st_a s) (st_b s) (st_g s) (st_E s) (st_w s) (st_sigma s)
  (st_e s) (st_median_errors s) (st_green_channel s)
  (fst (fst d)) (snd (fst d)) (snd d).

(** Module-level statements: they read and assign the globals, and an
    exception ends the run with the assignments made so far in place. *)
Definition prog (A : Type) : Type := state -> state * result A.

Definition pure {A} (v : A) : prog A := fun s => (s, Ok v).

Definition and_then {A B} (m : prog A) (k : A -> prog B) : prog B :=
  fun s =>
    match m s with
    | (s', Ok v) => k v s'
    | (s', Raise x) => (s', Raise x)
    end.

(** Evaluating an expression over the globals. *)
Definition eval {A} (f : state -> result A) : prog A := fun s => (s, f s).

(** An assignment [x = v]. *)
Definition assign (f : state -> state) : prog unit := fun s => (f s, Ok tt).

Notation "x <~ m ;; k" := (and_then m (fun x => k))
  (at level 61, m at next level, right associativity) : py_scope.
Notation "m ;;; k" := (and_then m (fun _ => k))
  (at level 61, right associativity) : py_scope.

Section Calibration.

(** Globals fixed after loading: [num_files = data.shape[0]] and
    [num_pixels = data.shape[1]]. *)
Variable num_files : nat.
Variable num_pixels : nat.
Variable data : list (list pixel).

(** Content of a freshly allocated [np.ndarray] at [i, k]: arbitrary. *)
Variable np_empty : nat -> nat -> fval.

(** [scipy.optimize.minimize(f, x0, options={"maxiter": 10}).x]; an
    exception of the objective propagates. *)
Variable minimize :
  (list fval -> result fval) -> list fval -> result (list fval).

(** The statements that end the loop body, [example_img = data[0]],
    [plt.imshow(calibrate(example_img))] and [plt.canvas.draw()]:
    visualisation, kept abstract.  As written the call raises: [calibrate]
    is defined in a later cell (NameError when the cells run in order) and
    is given one of its four arguments (TypeError once it is defined). *)
Variable plot : state -> result unit.

(** *** Step 1: irradiance *)

Definition calc_E_single (g w : list fval) (data : list (list fval))
    (b a : list fval) (i : nat) : result nd :=
  wi <- getitem w i ;;
  row <- getitem data i ;;
  gs <- g_func g row ;;
  bi <- getitem b i ;;
  ai <- getitem a i ;;
  Ok (Ar (map (fun v => fdiv (fmul wi (fsub v bi)) ai) gs)).

Definition calc_E (g w : list fval) (data : list (list fval))
    (b a : list fval) : result nd :=
  results <- mapM (calc_E_single g w data b a) (seq 0 num_files) ;;
  py_sum results.

(** *** Step 2: residuals *)

(** The loop over [enumerate(data[k, :])], writing [pool_errors[i, k]]
    into column [k]. *)
Fixpoint pool_loop (data : list (list fval)) (k : nat)
    (errors_per_pixel : list fval) (i : nat) (zs : list fval)
    (col : list fval) : result (list fval) :=
  match zs with
  | [] => Ok col
  | z :: rest =>
      pool_z <- pool data k z (Fin 1) ;;
      vals <- mapM (getitem errors_per_pixel) pool_z ;;
      col' <- setitem col i (np_mean vals) ;;
      pool_loop data k errors_per_pixel (S i) rest col'
  end.

(** One pass of the loop over [k]: column [k] of [pool_errors] and
    [median_errors[k]]. *)
Definition calc_e_frame (g : list fval) (data : list (list fval)) (E : nd)
    (a b : list fval) (k : nat) : result (list fval * fval) :=
  ak <- getitem a k ;;
  bk <- getitem b k ;;
  row <- getitem data k ;;
  gs <- g_func g row ;;
  errors_per_pixel <-
    nd_bcast fsub (nd_map (fun v => fadd v bk) (nd_map (fmul ak) E)) gs ;;
  col <- pool_loop data k errors_per_pixel 0 row
           (map (fun i => np_empty i k) (seq 0 num_pixels)) ;;
  diff <- arr_map2 fsub errors_per_pixel col ;;
  Ok (col, fmul (Fin c1265) (np_median diff)).

(** [calc_e] returns [pool_errors] by columns (the [k]-th list is
    [pool_errors[:, k]]) and [median_errors]. *)
Definition calc_e (g : list fval) (data : list (list fval)) (E : nd)
    (a b : list fval) : result (list (list fval) * list fval) :=
  frames <- mapM (calc_e_frame g data E a b) (seq 0 num_files) ;;
  Ok (map fst frames, map snd frames).

(** *** Step 3: the forward model and its objective *)

Definition calc_F_single (a : list fval) (E : nd) (da db dg w : list fval)
    (data : list (list fval)) (k i : nat) : result nd :=
  if i =? k then Ok (Sc (Fin 0))
  else
    row <- getitem data i ;;
    vals <- mapM (g_lookup dg) row ;;
    dg_of_data <- assign_all num_pixels vals ;;
    wi <- getitem w i ;;
    ak <- getitem a k ;;
    dai <- getitem da i ;;
    dbi <- getitem db i ;;
    Es <- nd_all E ;;
    t <- arr_map2 fsub (map (fun v => fsub v dbi) dg_of_data)
           (map (fun v => fmul v dai) Es) ;;
    Ok (Ar (map (fmul (fdiv (fmul wi ak) dai)) t)).

Definition calc_F (a b g : list fval) (E : nd) (da db dg w : list fval)
    (data : list (list fval)) (k : nat) : result (list fval) :=
  results <- mapM (calc_F_single a E da db dg w data k) (seq 0 num_files) ;;
  total <- py_sum results ;;
  wk <- getitem w k ;;
  row <- getitem data k ;;
  gs <- g_func g row ;;
  bk <- getitem b k ;;
  Es <- nd_all E ;;
  ak <- getitem a k ;;
  t <- arr_map2 fsub (map (fun v => fsub v bk) gs)
         (map (fun v => fmul v ak) Es) ;;
  nd_iadd total (map (fmul (fsub wk (Fin 1))) t).

Definition calc_total_F_error_single (s : state) (E : nd)
    (da db dg w : list fval) (data : list (list fval)) (k : nat)
    : result nd :=
  F <- calc_F (st_a s) (st_b s) (st_g s) E da db dg w data k ;;
  ek <- getitem (st_e s) k ;;
  d <- arr_map2 fsub ek F ;;
  sk <- getitem (st_sigma s) k ;;
  Ok (Ar (map (fun v => fdiv (fmul v v) sk) d)).

Definition calc_total_F_error (s : state) (args : list fval) : result fval :=
  let da := firstn num_files args in
  let db := firstn num_files (skipn num_files args) in
  let dg := skipn (2 * num_files) args in
  results <- mapM (calc_total_F_error_single s (st_E s) da db dg (st_w s)
                     (st_green_channel s)) (seq 0 num_files) ;;
  total <- py_sum results ;;
  nd_sum total.

Definition calc_gradients (s : state)
    : result (list fval * list fval * list fval) :=
  let args := repeat (Fin 1) num_files ++ repeat (Fin 0) (num_files + 256) in
  x <- minimize (calc_total_F_error s) args ;;
  Ok (firstn num_files x,
      firstn num_files (skipn num_files x),
      skipn (2 * num_files) x).

(** *** Step 4: the loop *)

(** Cell 8: the globals before the first iteration. *)
Definition initial_state : state :=
  mkState (repeat (Fin 1) num_files) (repeat (Fin 0) num_files)
    identity_curve (Ar (repeat (Fin 0) num_pixels))
    (repeat (fdiv (Fin 1) (Fin (QcZ (Z.of_nat num_files)))) num_files)
    (repeat (Fin 1) num_files) [] [] [] [] [] [].

(** [x - LEARN_RATE * dx]. *)
Definition damped_step (x dx : list fval) : result (list fval) :=
  arr_map2 fsub x (map (fmul LEARN_RATE) dx).

(** The body of [for j in range(NUM_LEARNING_ITERATIONS)]. *)
Definition iteration : prog unit :=
  assign (set_green_channel (map (map green) data)) ;;;
  E <~ eval (fun s => calc_E (st_g s) (st_w s) (st_green_channel s)
                        (st_b s) (st_a s)) ;;
  assign (set_E E) ;;;
  r <~ eval (fun s => calc_e (st_g s) (st_green_channel s) (st_E s)
                        (st_a s) (st_b s)) ;;
  assign (fun s => set_median_errors (snd r) (set_e (fst r) s)) ;;;
  assign (fun s => set_w (map (fdiv (Fin 1)) (st_median_errors s)) s) ;;;
  assign (fun s => set_sigma (st_median_errors s) s) ;;;
  d <~ eval calc_gradients ;;
  assign (set_deltas d) ;;;
  a' <~ eval (fun s => damped_step (st_a s) (st_da s)) ;;
  assign (set_a a') ;;;
  b' <~ eval (fun s => damped_step (st_b s) (st_db s)) ;;
  assign (set_b b') ;;;
  g' <~ eval (fun s => damped_step (st_g s) (st_dg s)) ;;
  assign (set_g g') ;;;
  eval plot.

Fixpoint calibration_loop (n : nat) : prog unit :=
  match n with
  | O => pure tt
  | S n' => iteration ;;; calibration_loop n'
  end.

End Calibration.

(* ------------------------------------------------------------------ *)
(** ** The specification's formulas

    Frames as the specification has them: integer codes, stored by the
    loaders as float samples ([code]).  Reals are exact rationals. *)

Local Open Scope nat_scope.

Definition samples (frames : list (list nat)) : list (list fval) :=
  map (map code) frames.

(** The code of pixel [p] in frame [i]. *)
Definition code_at (frames : list (list nat)) (i p : nat) : nat :=
  nth p (nth i frames []) 0%nat.

(** [E[p] = sum_i weight[i] * (responseCurve[frames[i][p]] - bias[i]) / gain[i]]. *)
Definition irradiance_formula (w b a g : list Qc) (frames : list (list nat))
    (p : nat) : Qc :=
  Qcsum (map (fun i =>
                (nth i w 0 * (nth (code_at frames i p) g 0 - nth i b 0)
                 / nth i a 0)%Qc)
             (seq 0 (length frames))).

(** The same sum in the arithmetic of the code, where a quotient by zero
    is an infinity or NaN. *)
Definition irradiance_terms (w b a g : list fval) (frames : list (list nat))
    (p : nat) : fval :=
  fsum (map (fun i =>
               fdiv (fmul (nth i w NaN)
                       (fsub (nth (code_at frames i p) g NaN) (nth i b NaN)))
                 (nth i a NaN))
            (seq 0 (length frames))).

(** [raw[p,k] = gain[k]*E[p] + bias[k] - responseCurve[frames[k][p]]]. *)
Definition raw_residual (g E a b : list fval) (frames : list (list nat))
    (k p : nat) : fval :=
  fsub (fadd (fmul (nth k a NaN) (nth p E NaN)) (nth k b NaN))
       (nth (code_at frames k p) g NaN).

(** The mean raw residual over a pool of positions of frame [k]. *)
Definition pooled_residual (g E a b : list fval) (frames : list (list nat))
    (k : nat) (pool_p : list nat) : fval :=
  np_mean (map (raw_residual g E a b frames k) pool_p).

(** The pool of pixel [p] of frame [k], at the default tolerance. *)
Definition pool_of (frames : list (list nat)) (k p : nat) : list nat :=
  nonzero (map (fun x => flt (fabs (fsub x (code (code_at frames k p)))) (Fin 1))
             (map code (nth k frames []))).

(** The value [pool_loop] stores for a sample [z]. *)
Definition pool_mean (data : list (list fval)) (k : nat)
    (errors_per_pixel : list fval) (z : fval) : result fval :=
  pool_z <- pool data k z (Fin 1) ;;
  vals <- mapM (getitem errors_per_pixel) pool_z ;;
  Ok (np_mean vals).

(** The globals once the loop body has assigned [green_channel], [E],
    [e], [median_errors], [w] and [sigma]. *)
Definition after_residuals (gc : list (list fval)) (E : nd)
    (pool_errors : list (list fval)) (median_errors : list fval)
    (s : state) : state :=
  set_sigma median_errors
    (set_w (map (fdiv (Fin 1)) median_errors)
       (set_median_errors median_errors
          (set_e pool_errors (set_E E (set_green_channel gc s))))).


(** A computation that ends in an exception. *)
Definition raises {A} (r : result A) : Prop := exists x, r = Raise x.

(** The identity curve as a list of reals. *)
Definition identity_curve_Q : list Qc :=
  map (fun c => QcZ (Z.of_nat c)) (seq 0 256).

(** A term of the forward model that vanishes: the integer 0 of the
    skipped frame or an array of [P] zeros. *)
Definition nd_zero (P : nat) (x : nd) : Prop :=
  x = Sc (Fin 0) \/ x = Ar (map (fun _ => Fin 0) (seq 0 P)).

(** Shapes that broadcast against an array of [P] entries. *)
Definition nd_fits (P : nat) (x : nd) : Prop :=
  match x with
  | Sc _ => True
  | Ar l => length l = P
  end.

Definition arr_len (P : nat) (x : nd) : Prop :=
  exists l, x = Ar l /\ length l = P.

(** The forward model at the start point of the minimizer. *)
Definition delta_a0 (F : nat) : list fval := repeat (Fin 1) F.
Definition delta_b0 (F : nat) : list fval := repeat (Fin 0) F.
Definition delta_g0 : list fval := repeat (Fin 0) 256.

(** The shape of the loaded data: [F] frames of [P] codes below 256. *)
Definition frames_wf (F P : nat) (frames : list (list nat)) : Prop :=
  length frames = F /\
  Forall (fun fr => length fr = P /\ Forall (fun c => c < 256) fr) frames.

(** What the loop relies on from [minimize]: when the objective raises
    nothing on vectors of the length of [x0], a vector of that length is
    returned (converged or not). *)
Definition minimizer_contract
    (minimize : (list fval -> result fval) -> list fval -> result (list fval))
    : Prop :=
  forall f x0,
    (forall x, length x = length x0 -> exists v, f x = Ok v) ->
    exists x, minimize f x0 = Ok x /\ length x = length x0.

(* ------------------------------------------------------------------ *)
(** ** Loading the frames

    [get_images_from_folder] and [get_images_from_video] read images with
    OpenCV; the embedding starts from the decoded images, in the order the
    notebook reads them.  An image is an array of shape [(h, w, 3)] of
    bytes.  The subsampling stride is positive: a zero stride is a
    ZeroDivisionError in both loaders and a negative one reverses the
    slices, and neither is modelled. *)

Definition rgb : Type := (nat * nat * nat)%type.

Record image : Type := mkImage {
  img_width : nat;
  img_rows : list (list rgb)
}.

(** [img.shape[0]]. *)
Definition img_height (im : image) : nat := length (img_rows im).

(** An array of shape [(h, w, 3)] with entries below 256. *)
Definition image_wf (h w : nat) (im : image) : Prop :=
  img_width im = w /\ length (img_rows im) = h /\
  Forall (fun row => length row = w /\
                     Forall (fun c => fst (fst c) < 256 /\ snd (fst c) < 256
                                      /\ snd c < 256) row)
         (img_rows im).

(** [l[::s]], with [k] elements still to skip. *)
Fixpoint stride_from {A} (s k : nat) (l : list A) : list A :=
  match l with
  | [] => []
  | x :: t =>
      match k with
      | O => x :: stride_from s (s - 1) t
      | S k' => stride_from s k' t
      end
  end.

Definition stride {A} (s : positive) (l : list A) : list A :=
  stride_from (Pos.to_nat s) 0 l.

(** [math.ceil(n / s)], the length of [l[::s]] for [n] elements. *)
Definition strided_len (n : nat) (s : positive) : nat :=
  (n + Pos.to_nat s - 1) / Pos.to_nat s.

(** A byte triple stored into the float array [data]. *)
Definition to_pixel (c : rgb) : pixel :=
  (code (fst (fst c)), code (snd (fst c)), code (snd c)).

(** [img[::s, ::s, :].reshape((NUM_PIXELS, 3))]: the slice has shape
    [(ceil(h/s), ceil(w/s), 3)] and is laid out row by row; NumPy refuses
    to reshape to another size. *)
Definition subsample_reshape (NUM_PIXELS : nat) (s : positive) (im : image)
  : result (list pixel) :=
  if strided_len (img_height im) s * strided_len (img_width im) s
     =? NUM_PIXELS
  then Ok (map to_pixel (concat (map (stride s) (stride s (img_rows im)))))
  else Raise ValueError.

(** [files] are the decoded images of [glob.glob(pattern)]. *)
Definition get_images_from_folder (files : list image) (subsampling : positive)
  : result (list (list pixel)) :=
  img <- getitem files 0 ;;
  let NUM_PIXELS :=
    (img_height img / Pos.to_nat subsampling)
    * (img_width img / Pos.to_nat subsampling) in
  mapM (subsample_reshape NUM_PIXELS subsampling) files.

(** The [while success] loop: [frames] are the frames still to store,
    the first of them read already. *)
Fixpoint video_loop (NUM_PIXELS : nat) (s : positive)
    (data : list (list pixel)) (i : nat) (frames : list image)
  : result (list (list pixel)) :=
  match frames with
  | [] => Ok data
  | img :: rest =>
      px <- subsample_reshape NUM_PIXELS s img ;;
      data' <- setitem data i px ;;
      video_loop NUM_PIXELS s data' (S i) rest
  end.

(** [frame_count] is [int(video.get(cv2.CAP_PROP_FRAME_COUNT))], [frames]
    the frames [vidcap.read()] delivers before it fails, [np_empty_px] the
    content of the fresh array [data].  Without a first frame [img] is
    [None], which has no [shape]. *)
Definition get_images_from_video (np_empty_px : nat -> nat -> pixel)
    (frame_count : nat) (frames : list image) (subsampling : positive)
  : result (list (list pixel)) :=
  match frames with
  | [] => Raise AttributeError
  | img :: _ =>
      let NUM_PIXELS :=
        strided_len (img_height img) subsampling
        * strided_len (img_width img) subsampling in
      video_loop NUM_PIXELS subsampling
        (map (fun i => map (np_empty_px i) (seq 0 NUM_PIXELS))
             (seq 0 frame_count))
        0 frames
  end.

(** The subsampled pixels of an image, row by row. *)
Definition subsampled (s : positive) (im : image) : list pixel :=
  map to_pixel (concat (map (stride s) (stride s (img_rows im)))).

(** The green bytes of an image at the subsampled positions. *)
Definition green_codes (s : positive) (im : image) : list nat :=
  map (fun c => snd (fst c)) (concat (map (stride s) (stride s (img_rows im)))).

(** Reading an array entry that broadcasts: a scalar stands at every
    position. *)
Definition nd_at (x : nd) (p : nat) : fval :=
  match x with
  | Sc v => v
  | Ar l => nth p l NaN
  end.

(** The contribution of frame [i] to the forward model of frame [k] at
    pixel [p]: nothing for [i = k], otherwise
    [w[i] * a[k] / da[i] * (dg[frames[i][p]] - db[i] - E[p] * da[i])]. *)
Definition forward_term (a E da db dg w : list fval)
    (frames : list (list nat)) (k i p : nat) : fval :=
  if i =? k then Fin 0
  else fmul (fdiv (fmul (nth i w NaN) (nth k a NaN)) (nth i da NaN))
         (fsub (fsub (nth (code_at frames i p) dg NaN) (nth i db NaN))
               (fmul (nth p E NaN) (nth i da NaN))).

(** The term of frame [k] itself:
    [(w[k] - 1) * (g[frames[k][p]] - b[k] - E[p] * a[k])]. *)
Definition self_term (a b g E w : list fval) (frames : list (list nat))
    (k p : nat) : fval :=
  fmul (fsub (nth k w NaN) (Fin 1))
       (fsub (fsub (nth (code_at frames k p) g NaN) (nth k b NaN))
             (fmul (nth p E NaN) (nth k a NaN))).

Definition forward_model (a b g E da db dg w : list fval)
    (frames : list (list nat)) (k p : nat) : fval :=
  fadd (fsum (map (fun i => forward_term a E da db dg w frames k i p)
                  (seq 0 (length frames))))
       (self_term a b g E w frames k p).

(** The objective of the minimizer: over the pixels and the frames, the
    squared deviation of the pooled residual [e[p, k]] from the forward
    model, divided by [sigma[k]]. *)
Definition objective_formula (s : state) (Es da db dg : list fval)
    (frames : list (list nat)) (P : nat) : fval :=
  fsum (map (fun p =>
    fsum (map (fun k =>
      let d := fsub (nth p (nth k (st_e s) []) NaN)
                    (forward_model (st_a s) (st_b s) (st_g s) Es da db dg
                       (st_w s) frames k p) in
      fdiv (fmul d d) (nth k (st_sigma s) NaN))
      (seq 0 (length frames))))
    (seq 0 P)).

(* ------------------------------------------------------------------ *)
(** ** The pool and the error scale in the specification's words *)

(** The pool of pixel [p] of frame [k] as the specification defines it:
    the positions of frame [k] whose code lies within the tolerance of the
    code of [p], that is at absolute distance at most [eps]. *)
Definition spec_pool (frames : list (list nat)) (k p : nat) (eps : fval)
    : list nat :=
  nonzero (map (fun c => fle (fabs (fsub (code c) (code (code_at frames k p))))
                           eps)
             (nth k frames [])).

(** The pooled residual over that pool, and the error scale
    [1.265 * median(raw[:,k] - pooled[:,k])] it leads to. *)
Definition spec_pooled (g E a b : list fval) (frames : list (list nat))
    (k p : nat) : fval :=
  pooled_residual g E a b frames k (spec_pool frames k p (Fin 1)).

Definition spec_error_scale (g E a b : list fval) (frames : list (list nat))
    (k : nat) : fval :=
  fmul (Fin c1265)
    (np_median (map (fun p => fsub (raw_residual g E a b frames k p)
                                   (spec_pooled g E a b frames k p))
                    (seq 0 (length (nth k frames []))))).

(* ------------------------------------------------------------------ *)
(** ** [calibrate] on a curve held in a Python list

    [calibrate] takes the curve from its caller.  A float64 array gives
    float64 outputs, which [calibrate] above follows.  A Python list holds
    ints and floats side by side, and [np.vectorize] stores every output
    in the type of the first one. *)










(** ** Tactics *)

(** Projections of updated globals. *)
Ltac st_simpl :=
  cbn [st_a st_b st_g st_E st_w st_sigma st_e st_median_errors
       st_green_channel st_da st_db st_dg
       set_a set_b set_g set_E set_w set_sigma set_e set_median_errors
       set_green_channel set_deltas after_residuals fst snd].

(** Shape side conditions at concrete inputs. *)
Ltac shape := repeat first [lia | reflexivity | split | constructor].

(* ================================================================== *)
(** * Properties *)

(** ** Arithmetic *)

Lemma QcZ_this (z : Z) : this (QcZ z) = inject_Z z.
Proof.
  unfold QcZ, Q2Qc. cbn [this]. apply Qred_identity. simpl. apply Z.gcd_1_r.
Qed.

Lemma Qc_zerob_true (q : Qc) : Qc_zerob q = true <-> q = 0%Qc.
Proof.
  unfold Qc_zerob. rewrite Z.eqb_eq. split; intro H.
  - apply Qc_is_canon. destruct q as [[n d] c]; simpl in *. subst n.
    reflexivity.
  - subst q. reflexivity.
Qed.

Lemma Qc_zerob_false (q : Qc) : q <> 0%Qc -> Qc_zerob q = false.
Proof.
  intro H. destruct (Qc_zerob q) eqn:E; [|reflexivity].
  apply Qc_zerob_true in E. contradiction.
Qed.

Lemma Qc_ltb_true (p q : Qc) : Qc_ltb p q = true <-> (p < q)%Qc.
Proof.
  unfold Qc_ltb, Qclt. rewrite negb_true_iff.
  split; intro H.
  - apply Qnot_le_lt. intro L. apply Qle_bool_iff in L. congruence.
  - destruct (Qle_bool q p) eqn:E; [|reflexivity].
    apply Qle_bool_iff in E. exfalso. exact (Qlt_not_le _ _ H E).
Qed.

Lemma Qc_nonzero (q : Qc) : Qc_zerob q = false -> q <> 0%Qc.
Proof. intros H E. apply Qc_zerob_true in E. congruence. Qed.

Lemma fdiv_fin (p q : Qc) : q <> 0%Qc -> fdiv (Fin p) (Fin q) = Fin (p / q).
Proof. intro H. simpl. now rewrite Qc_zerob_false. Qed.

Lemma fsum_from_fin (l : list Qc) (acc : Qc) :
  fold_left fadd (map Fin l) (Fin acc) = Fin (fold_left Qcplus l acc).
Proof. revert acc. induction l as [|x l IH]; intro acc; simpl; [reflexivity|apply IH]. Qed.

Lemma fsum_fin (l : list Qc) : fsum (map Fin l) = Fin (Qcsum l).
Proof. apply fsum_from_fin. Qed.

Lemma fadd_0_l (x : fval) : fadd (Fin 0) x = x.
Proof. destruct x; simpl; try reflexivity. now rewrite Qcplus_0_l. Qed.

(** ** Sequences *)

Lemma mapM_ok {A B} (f : A -> result B) (h : A -> B) (l : list A) :
  (forall x, In x l -> f x = Ok (h x)) -> mapM f l = Ok (map h l).
Proof.
  induction l as [|x l IH]; intro H; simpl; [reflexivity|].
  rewrite (H x (or_introl eq_refl)). simpl.
  rewrite IH by (intros y Hy; apply H; now right). reflexivity.
Qed.

Lemma mapM_map {A B C} (f : B -> result C) (u : A -> B) (l : list A) :
  mapM f (map u l) = mapM (fun x => f (u x)) l.
Proof. induction l as [|x l IH]; simpl; [reflexivity|now rewrite IH]. Qed.

Lemma getitem_nth {A} (l : list A) (i : nat) (d : A) :
  i < length l -> getitem l i = Ok (nth i l d).
Proof.
  intro H. unfold getitem.
  destruct (nth_error l i) eqn:E.
  - now rewrite (nth_error_nth _ _ d E).
  - apply nth_error_None in E. lia.
Qed.

Lemma getitem_out {A} (l : list A) (i : nat) :
  length l <= i -> getitem l i = Raise IndexError.
Proof.
  intro H. unfold getitem. now rewrite (proj2 (nth_error_None l i) H).
Qed.

Lemma list_as_map_seq {A} (l : list A) (d : A) :
  l = map (fun p => nth p l d) (seq 0 (length l)).
Proof.
  apply (nth_ext _ _ d d).
  - now rewrite length_map, length_seq.
  - intros n Hn.
    rewrite (nth_indep (map _ _) d (nth 0 l d))
      by now rewrite length_map, length_seq.
    rewrite (map_nth (fun p => nth p l d)), seq_nth by assumption.
    reflexivity.
Qed.

Lemma zip_with_map {A B C D} (f : B -> C -> D) (u : A -> B) (v : A -> C)
    (l : list A) :
  zip_with f (map u l) (map v l) = map (fun x => f (u x) (v x)) l.
Proof. induction l as [|x l IH]; simpl; [reflexivity|now rewrite IH]. Qed.

Lemma arr_map2_same (f : fval -> fval -> fval) (l m : list fval) :
  length l = length m -> arr_map2 f l m = Ok (zip_with f l m).
Proof. intro H. unfold arr_map2. now rewrite H, Nat.eqb_refl. Qed.

Lemma arr_map2_seq (f : fval -> fval -> fval) (u v : nat -> fval)
    (l : list nat) :
  arr_map2 f (map u l) (map v l) = Ok (map (fun p => f (u p) (v p)) l).
Proof.
  rewrite arr_map2_same by now rewrite !length_map.
  now rewrite zip_with_map.
Qed.

Lemma nth_map_seq {A} (h : nat -> A) (n p : nat) (d : A) :
  p < n -> nth p (map h (seq 0 n)) d = h p.
Proof.
  intro H. rewrite (nth_indep _ d (h 0)) by now rewrite length_map, length_seq.
  rewrite (map_nth h), seq_nth by assumption. reflexivity.
Qed.

Lemma nth_error_map_seq {A} (h : nat -> A) (n p : nat) :
  p < n -> nth_error (map h (seq 0 n)) p = Some (h p).
Proof.
  intro H. rewrite nth_error_map, nth_error_seq.
  destruct (Nat.ltb_spec p n); [reflexivity|lia].
Qed.

(** ** The curve lookup on integer codes *)

Lemma py_int_code (c : nat) : py_int (code c) = Ok (Z.of_nat c).
Proof.
  unfold code, py_int. rewrite QcZ_this. simpl. now rewrite Z.quot_1_r.
Qed.

Lemma getitem_int_nat {A} (l : list A) (c : nat) (d : A) :
  c < length l -> getitem_int l (Z.of_nat c) = Ok (nth c l d).
Proof.
  intro H. unfold getitem_int.
  destruct (Z.leb_spec 0 (Z.of_nat c)); [|lia].
  rewrite Nat2Z.id. now apply getitem_nth.
Qed.

Lemma g_lookup_code (g : list fval) (c : nat) :
  c < length g -> g_lookup g (code c) = Ok (nth c g NaN).
Proof.
  intro H. unfold g_lookup. rewrite py_int_code. simpl.
  now apply getitem_int_nat.
Qed.

Lemma g_func_codes (g : list fval) (cs : list nat) :
  cs <> [] -> Forall (fun c => c < length g) cs ->
  g_func g (map code cs) = Ok (map (fun c => nth c g NaN) cs).
Proof.
  intros Hne Hc. unfold g_func, vectorize.
  destruct cs as [|c cs]; [congruence|]. cbn [map].
  change (code c :: map code cs) with (map code (c :: cs)).
  assert (M : forall l, Forall (fun c => c < length g) l ->
              mapM (g_lookup g) (map code l)
              = Ok (map (fun c => nth c g NaN) l)).
  { induction l as [|x l IH]; intro Hl; simpl; [reflexivity|].
    inversion Hl; subst. rewrite g_lookup_code by assumption. simpl.
    rewrite IH by assumption. reflexivity. }
  now apply M.
Qed.

(** ** Python's [sum] over arrays of one length *)

Lemma py_sum_from_arrays (t : nat -> nat -> fval) (acc : nat -> fval)
    (P : nat) (ks : list nat) :
  py_sum_from (Ar (map acc (seq 0 P)))
    (map (fun i => Ar (map (t i) (seq 0 P))) ks)
  = Ok (Ar (map (fun p => fold_left fadd (map (fun i => t i p) ks) (acc p))
              (seq 0 P))).
Proof.
  revert acc. induction ks as [|i ks IH]; intro acc; simpl; [reflexivity|].
  rewrite arr_map2_seq. simpl. apply IH.
Qed.

Lemma py_sum_arrays (t : nat -> nat -> fval) (P : nat) (ks : list nat) :
  ks <> [] ->
  py_sum (map (fun i => Ar (map (t i) (seq 0 P))) ks)
  = Ok (Ar (map (fun p => fsum (map (fun i => t i p) ks)) (seq 0 P))).
Proof.
  intro Hne. destruct ks as [|i ks]; [congruence|].
  unfold py_sum. simpl. rewrite map_map.
  apply (py_sum_from_arrays t (fun p => fadd (Fin 0) (t i p))).
Qed.

(** ** Step 1: irradiance *)

Lemma frames_wf_nth (F P : nat) (frames : list (list nat)) (i : nat) :
  frames_wf F P frames -> i < F ->
  length (nth i frames []) = P /\
  Forall (fun c => c < 256) (nth i frames []).
Proof.
  intros [HF Hall] Hi. rewrite Forall_forall in Hall.
  apply Hall, nth_In. lia.
Qed.

Lemma samples_nth (frames : list (list nat)) (i : nat) :
  nth i (samples frames) [] = map code (nth i frames []).
Proof. unfold samples. now rewrite <- (map_nth (map code)). Qed.

Lemma frame_row (F P : nat) (frames : list (list nat)) (i : nat) :
  frames_wf F P frames -> i < F ->
  nth i frames [] = map (code_at frames i) (seq 0 P).
Proof.
  intros W Hi. destruct (frames_wf_nth W Hi) as [HP _].
  rewrite <- HP at 1. unfold code_at.
  apply (list_as_map_seq (nth i frames []) 0).
Qed.

Lemma code_at_bound (F P : nat) (frames : list (list nat)) (i p : nat) :
  frames_wf F P frames -> i < F -> p < P -> code_at frames i p < 256.
Proof.
  intros W Hi Hp. destruct (frames_wf_nth W Hi) as [HP Hc].
  rewrite Forall_forall in Hc. apply Hc, nth_In. lia.
Qed.

(** The curve values of frame [i], when the frame is not empty. *)
Lemma g_func_row (F P : nat) (g : list fval) (frames : list (list nat))
    (i : nat) :
  frames_wf F P frames -> i < F -> 0 < P -> length g = 256 ->
  g_func g (map code (nth i frames []))
  = Ok (map (fun p => nth (code_at frames i p) g NaN) (seq 0 P)).
Proof.
  intros W Hi HP Hg. destruct (frames_wf_nth W Hi) as [HL Hc].
  rewrite g_func_codes.
  - rewrite (frame_row W Hi) at 1. now rewrite map_map.
  - intro E. rewrite E in HL. simpl in HL. lia.
  - now rewrite Hg.
Qed.

Lemma calc_E_single_value (F P : nat) (g w b a : list fval)
    (frames : list (list nat)) (i : nat) :
  frames_wf F P frames -> 0 < P -> length g = 256 ->
  length w = F -> length b = F -> length a = F -> i < F ->
  calc_E_single g w (samples frames) b a i
  = Ok (Ar (map (fun p =>
                   fdiv (fmul (nth i w NaN)
                           (fsub (nth (code_at frames i p) g NaN)
                              (nth i b NaN)))
                     (nth i a NaN))
              (seq 0 P))).
Proof.
  intros W HP Hg Hw Hb Ha Hi. unfold calc_E_single.
  rewrite (getitem_nth w NaN) by lia. cbn [bind].
  rewrite (getitem_nth (samples frames) []).
  2:{ unfold samples. rewrite length_map. destruct W. lia. }
  cbn [bind]. rewrite samples_nth, (g_func_row g W Hi HP Hg). cbn [bind].
  rewrite (getitem_nth b NaN) by lia. cbn [bind].
  rewrite (getitem_nth a NaN) by lia. cbn [bind].
  now rewrite map_map.
Qed.

(** [calc_E] on well-shaped input, for any weights, biases and gains. *)
Lemma calc_E_value (F P : nat) (g w b a : list fval)
    (frames : list (list nat)) :
  frames_wf F P frames -> 0 < F -> 0 < P -> length g = 256 ->
  length w = F -> length b = F -> length a = F ->
  calc_E F g w (samples frames) b a
  = Ok (Ar (map (irradiance_terms w b a g frames) (seq 0 P))).
Proof.
  intros W HF HP Hg Hw Hb Ha. unfold calc_E.
  rewrite (mapM_ok _ (fun i =>
    Ar (map (fun p =>
               fdiv (fmul (nth i w NaN)
                       (fsub (nth (code_at frames i p) g NaN) (nth i b NaN)))
                 (nth i a NaN)) (seq 0 P)))).
  - cbn [bind].
    rewrite (py_sum_arrays
      (fun i p => fdiv (fmul (nth i w NaN)
                          (fsub (nth (code_at frames i p) g NaN) (nth i b NaN)))
                    (nth i a NaN))).
    + unfold irradiance_terms. destruct W as [HL _]. now rewrite HL.
    + destruct F; [lia|]. discriminate.
  - intros i Hi. apply in_seq in Hi.
    eapply calc_E_single_value; eauto; lia.
Qed.

Lemma nth_map_Fin (l : list Qc) (i : nat) :
  i < length l -> nth i (map Fin l) NaN = Fin (nth i l 0%Qc).
Proof.
  intro H. rewrite (nth_indep _ NaN (Fin 0)) by now rewrite length_map.
  apply (map_nth Fin).
Qed.

Lemma irradiance_terms_finite (F P : nat) (g w b a : list Qc)
    (frames : list (list nat)) (p : nat) :
  frames_wf F P frames -> length g = 256 ->
  length w = F -> length b = F -> length a = F ->
  Forall (fun x => x <> 0%Qc) a -> p < P ->
  irradiance_terms (map Fin w) (map Fin b) (map Fin a) (map Fin g) frames p
  = Fin (irradiance_formula w b a g frames p).
Proof.
  intros W Hg Hw Hb Ha Hnz Hp.
  unfold irradiance_terms, irradiance_formula.
  rewrite <- fsum_fin, map_map. f_equal.
  apply map_ext_in. intros i Hi. apply in_seq in Hi.
  assert (HiF : i < F) by (destruct W; lia).
  rewrite !nth_map_Fin; try lia.
  2:{ rewrite Hg. apply (code_at_bound W HiF Hp). }
  cbn [fsub fneg fadd fmul]. apply fdiv_fin.
  rewrite Forall_forall in Hnz. apply Hnz, nth_In. lia.
Qed.

(** C1.  With non-zero gains and a weight per frame, [calc_E] returns an
    irradiance map whose entry at every pixel [p] is the sum over the
    frames [i] of [weight[i] * (responseCurve[frames[i][p]] - bias[i]) /
    gain[i]]. *)
Theorem calc_E_weighted_sum (F P : nat) (g w b a : list Qc)
    (frames : list (list nat)) (p : nat) :
  frames_wf F P frames -> 0 < F -> length g = 256 ->
  length w = F -> length b = F -> length a = F ->
  Forall (fun x => x <> 0%Qc) a -> p < P ->
  exists E,
    calc_E F (map Fin g) (map Fin w) (samples frames) (map Fin b) (map Fin a)
    = Ok (Ar E) /\
    length E = P /\
    nth_error E p = Some (Fin (irradiance_formula w b a g frames p)).
Proof.
  intros W HF Hg Hw Hb Ha Hnz Hp.
  eexists. split; [|split].
  - apply (calc_E_value (P := P)); rewrite ?length_map; auto; lia.
  - now rewrite length_map, length_seq.
  - rewrite nth_error_map_seq by assumption. f_equal.
    now apply (irradiance_terms_finite (F := F) (P := P)).
Qed.

(** ** Step 2: pools and residuals *)

Lemma nonzero_from_bound (mask : list bool) (i q : nat) :
  In q (nonzero_from i mask) -> i <= q < i + length mask.
Proof.
  revert i. induction mask as [|m mask IH]; intros i H; simpl in *; [tauto|].
  destruct m.
  - destruct H as [H|H]; [lia|]. apply IH in H. lia.
  - apply IH in H. lia.
Qed.

Lemma nonzero_from_spec (mask : list bool) (i q : nat) :
  In q (nonzero_from i mask) <-> i <= q /\ nth_error mask (q - i) = Some true.
Proof.
  revert i. induction mask as [|m mask IH]; intro i; simpl.
  - split; [tauto|]. intros [_ H]. destruct (q - i); discriminate.
  - assert (S : forall j, i < j -> j - i = S (j - S i)) by (intros; lia).
    destruct m; simpl; rewrite ?IH.
    + split.
      * intros [H|[H1 H2]].
        -- subst q. rewrite Nat.sub_diag. now split.
        -- split; [lia|]. rewrite (S q) by lia. exact H2.
      * intros [H1 H2]. destruct (Nat.eq_dec i q) as [E|N]; [now left|right].
        split; [lia|]. rewrite (S q) in H2 by lia. exact H2.
    + split.
      * intros [H1 H2]. split; [lia|]. rewrite (S q) by lia. exact H2.
      * intros [H1 H2]. destruct (Nat.eq_dec i q) as [E|N].
        -- subst q. rewrite Nat.sub_diag in H2. discriminate.
        -- split; [lia|]. rewrite (S q) in H2 by lia. exact H2.
Qed.

Lemma list_set_middle {A} (pre rest : list A) (m v : A) :
  list_set (pre ++ m :: rest) (length pre) v = pre ++ v :: rest.
Proof. induction pre as [|x pre IH]; simpl; [reflexivity|now rewrite IH]. Qed.

Lemma setitem_middle {A} (pre rest : list A) (m v : A) :
  setitem (pre ++ m :: rest) (length pre) v = Ok (pre ++ v :: rest).
Proof.
  unfold setitem. rewrite length_app. simpl.
  destruct (Nat.ltb_spec (length pre) (length pre + S (length rest))); [|lia].
  now rewrite list_set_middle.
Qed.

Lemma pool_loop_value (data : list (list fval)) (k : nat)
    (errs : list fval) (hz : fval -> fval) (zs : list fval) :
  (forall z, In z zs -> pool_mean data k errs z = Ok (hz z)) ->
  forall pre mid post, length mid = length zs ->
    pool_loop data k errs (length pre) zs (pre ++ mid ++ post)
    = Ok (pre ++ map hz zs ++ post).
Proof.
  induction zs as [|z zs IH]; intros H pre mid post Hm.
  - destruct mid; [reflexivity|discriminate].
  - destruct mid as [|m mid]; [discriminate|]. simpl in Hm.
    pose proof (H z (or_introl eq_refl)) as Hz. unfold pool_mean in Hz.
    cbn [pool_loop].
    destruct (pool data k z (Fin 1)) as [pool_z|]; [|discriminate].
    cbn [bind] in *.
    destruct (mapM (getitem errs) pool_z) as [vals|]; [|discriminate].
    cbn [bind] in *. injection Hz as Hz. rewrite Hz.
    change (pre ++ (m :: mid) ++ post) with (pre ++ m :: (mid ++ post)).
    rewrite setitem_middle. cbn [bind].
    replace (S (length pre)) with (length (pre ++ [hz z]))
      by (rewrite length_app; simpl; lia).
    replace (pre ++ hz z :: mid ++ post) with ((pre ++ [hz z]) ++ mid ++ post)
      by now rewrite <- app_assoc.
    rewrite IH; [|intros; apply H; now right|lia].
    now rewrite <- app_assoc.
Qed.

Lemma pool_value (F P : nat) (frames : list (list nat)) (k p : nat) :
  frames_wf F P frames -> k < F ->
  pool (samples frames) k (code (code_at frames k p)) (Fin 1)
  = Ok (pool_of frames k p).
Proof.
  intros W Hk. unfold pool.
  rewrite (getitem_nth (samples frames) []).
  2:{ unfold samples. rewrite length_map. destruct W. lia. }
  now rewrite samples_nth.
Qed.

Lemma pool_of_bound (F P : nat) (frames : list (list nat)) (k p q : nat) :
  frames_wf F P frames -> k < F -> In q (pool_of frames k p) -> q < P.
Proof.
  intros W Hk H. apply nonzero_from_bound in H.
  rewrite !length_map in H. destruct (frames_wf_nth W Hk) as [HP _]. lia.
Qed.

Lemma calc_e_frame_value (F P : nat) (np_empty : nat -> nat -> fval)
    (g E a b : list fval) (frames : list (list nat)) (k : nat) :
  frames_wf F P frames -> 0 < P -> length g = 256 -> length E = P ->
  length a = F -> length b = F -> k < F ->
  let raw := raw_residual g E a b frames k in
  let pooled := fun p => pooled_residual g E a b frames k (pool_of frames k p) in
  calc_e_frame P np_empty g (samples frames) (Ar E) a b k
  = Ok (map pooled (seq 0 P),
        fmul (Fin c1265)
          (np_median (map (fun p => fsub (raw p) (pooled p)) (seq 0 P)))).
Proof.
  intros W HP Hg HE Ha Hb Hk raw pooled. unfold calc_e_frame.
  rewrite (getitem_nth a NaN) by lia. cbn [bind].
  rewrite (getitem_nth b NaN) by lia. cbn [bind].
  rewrite (getitem_nth (samples frames) []).
  2:{ unfold samples. rewrite length_map. destruct W. lia. }
  cbn [bind]. rewrite samples_nth, (g_func_row g W Hk HP Hg). cbn [bind].
  cbn [nd_map nd_bcast]. rewrite !map_map.
  rewrite (list_as_map_seq E NaN) at 1. rewrite HE, map_map.
  rewrite arr_map2_seq. cbn [bind].
  change (map _ (seq 0 P)) with (map raw (seq 0 P)) at 1.
  set (hz := fun z => match pool_mean (samples frames) k (map raw (seq 0 P)) z with
                      | Ok v => v | Raise _ => NaN end).
  assert (Hhz : forall p, p < P ->
            pool_mean (samples frames) k (map raw (seq 0 P))
              (code (code_at frames k p)) = Ok (pooled p)).
  { intros p Hp. unfold pool_mean. erewrite pool_value by eauto. cbn [bind].
    rewrite (mapM_ok _ raw).
    - reflexivity.
    - intros q Hq. eapply pool_of_bound in Hq; eauto.
      rewrite (getitem_nth _ NaN) by now rewrite length_map, length_seq.
      now rewrite nth_map_seq. }
  rewrite (frame_row W Hk), map_map.
  pose proof (pool_loop_value (samples frames) k (map raw (seq 0 P)) hz
                (map (fun p => code (code_at frames k p)) (seq 0 P))) as L.
  assert (Hz : forall z,
            In z (map (fun p => code (code_at frames k p)) (seq 0 P)) ->
            pool_mean (samples frames) k (map raw (seq 0 P)) z = Ok (hz z)).
  { intros z Hz. apply in_map_iff in Hz. destruct Hz as [p [<- Hp]].
    apply in_seq in Hp. unfold hz. rewrite Hhz by lia. reflexivity. }
  specialize (L Hz [] (map (fun i => np_empty i k) (seq 0 P)) []).
  rewrite !length_map in L. specialize (L eq_refl).
  cbn [app length] in L. rewrite !app_nil_r in L. rewrite L. cbn [bind].
  rewrite map_map.
  assert (Hcol : map (fun p => hz (code (code_at frames k p))) (seq 0 P)
                 = map pooled (seq 0 P)).
  { apply map_ext_in. intros p Hp. apply in_seq in Hp.
    unfold hz. now rewrite Hhz by lia. }
  rewrite Hcol, arr_map2_seq. reflexivity.
Qed.

(** What [calc_e] computes with the positions that [pool] returns.  On
    [F] frames of [P >= 1] samples it takes as raw residual of frame [k]
    at pixel [p] the value
    [gain[k]*E[p] + bias[k] - responseCurve[frames[k][p]]], stores as
    pooled residual the mean raw residual over the positions [pool] returns
    for [p], and returns for frame [k] 1.265 times the median over the
    pixels of raw minus pooled residual. *)
Theorem calc_e_pooled_residuals (F P : nat) (np_empty : nat -> nat -> fval)
    (g E a b : list fval) (frames : list (list nat)) :
  frames_wf F P frames -> 0 < P -> length g = 256 -> length E = P ->
  length a = F -> length b = F ->
  exists pool_errors median_errors,
    calc_e F P np_empty g (samples frames) (Ar E) a b
    = Ok (pool_errors, median_errors) /\
    forall k, k < F ->
      (forall p, p < P ->
         exists pool_p,
           pool (samples frames) k (code (code_at frames k p)) (Fin 1)
           = Ok pool_p /\
           nth_error (nth k pool_errors []) p
           = Some (pooled_residual g E a b frames k pool_p)) /\
      nth_error median_errors k
      = Some (fmul (Fin c1265)
                (np_median
                   (map (fun p =>
                           fsub (raw_residual g E a b frames k p)
                                (nth p (nth k pool_errors []) NaN))
                        (seq 0 P)))).
Proof.
  intros W HP Hg HE Ha Hb.
  set (pooled := fun k p =>
         pooled_residual g E a b frames k (pool_of frames k p)).
  set (scale := fun k =>
         fmul (Fin c1265)
           (np_median (map (fun p => fsub (raw_residual g E a b frames k p)
                                          (pooled k p)) (seq 0 P)))).
  exists (map (fun k => map (pooled k) (seq 0 P)) (seq 0 F)).
  exists (map scale (seq 0 F)).
  split.
  - unfold calc_e.
    rewrite (mapM_ok _ (fun k => (map (pooled k) (seq 0 P), scale k))).
    + cbn [bind]. now rewrite !map_map.
    + intros k Hk. apply in_seq in Hk.
      eapply calc_e_frame_value; eauto. lia.
  - intros k Hk. rewrite (nth_map_seq _ _ Hk). split.
    + intros p Hp. exists (pool_of frames k p). split.
      * eapply pool_value; eauto.
      * now rewrite nth_error_map_seq.
    + rewrite nth_error_map_seq by assumption. unfold scale.
      do 3 f_equal. apply map_ext_in. intros p Hp. apply in_seq in Hp.
      rewrite nth_map_seq by lia. reflexivity.
Qed.

(** Positive tolerance keeps a finite sample in its own pool. *)
Lemma pool_has_self (F P : nat) (frames : list (list nat)) (k p : nat) :
  frames_wf F P frames -> k < F -> p < P -> In p (pool_of frames k p).
Proof.
  intros W Hk Hp. unfold pool_of, nonzero. apply nonzero_from_spec.
  split; [lia|]. rewrite Nat.sub_0_r, !nth_error_map.
  destruct (frames_wf_nth W Hk) as [HL _].
  destruct (nth_error (nth k frames []) p) as [c|] eqn:E.
  - unfold code_at. rewrite (nth_error_nth _ _ 0 E). cbn [option_map].
    f_equal. unfold code. cbn [fsub fneg fadd fabs flt].
    rewrite Qcplus_opp_r. reflexivity.
  - apply nth_error_None in E. lia.
Qed.

(** C3, at frame [[10, 11]] and the default tolerance 1: the pool of the
    pixel of code 10 is that pixel alone, although the pixel of code 11
    lies at distance 1, which does not exceed the tolerance. *)
Theorem pool_leaves_out_distance_one :
  pool (samples [[10; 11]]) 0 (code 10) (Fin 1) = Ok [0] /\
  fle (fabs (fsub (code 11) (code 10))) (Fin 1) = true.
Proof. split; vm_compute; reflexivity. Qed.

(** C2, at one frame of codes [[10, 11, 12]] with unit gain, zero bias,
    the identity curve and the irradiance map [[10, 12, 17]].  The raw
    residuals are 0, 1 and 5.  [calc_e] pools every pixel with itself
    alone: it stores 0, 1 and 5 as pooled residuals and returns the error
    scale 0.  Over the pools of the specification, [[0, 1]], [[0, 1, 2]]
    and [[1, 2]], the pooled residuals are 1/2, 2 and 3 and the error
    scale is 1.265 * (-1/2). *)
Theorem calc_e_pools_equal_codes_only :
  let frames := [[10; 11; 12]] in
  let E := [code 10; code 12; code 17] in
  let a := [Fin 1] in
  let b := [Fin 0] in
  map (raw_residual identity_curve E a b frames 0) [0; 1; 2]
  = [code 0; code 1; code 5] /\
  calc_e 1 3 (fun _ _ => NaN) identity_curve (samples frames) (Ar E) a b
  = Ok ([[code 0; code 1; code 5]], [Fin 0]) /\
  map (fun p => spec_pool frames 0 p (Fin 1)) [0; 1; 2]
  = [[0; 1]; [0; 1; 2]; [1; 2]] /\
  map (spec_pooled identity_curve E a b frames 0) [0; 1; 2]
  = [Fin (Q2Qc (1 # 2)); code 2; code 3] /\
  spec_error_scale identity_curve E a b frames 0
  = Fin (Q2Qc (- 6325 # 10000)).
Proof.
  repeat split; vm_compute;
    repeat (f_equal; try (apply Qc_is_canon; reflexivity)).
Qed.

(** ** Step 3: the forward model at the start point *)

Lemma nd_add_zero (P : nat) (x y : nd) :
  nd_zero P x -> nd_zero P y ->
  exists t, nd_map2 fadd x y = Ok t /\ nd_zero P t.
Proof.
  assert (Z : forall l : list nat,
            map (fun _ => fadd (Fin 0) (Fin 0)) l = map (fun _ => Fin 0) l).
  { intro l. apply map_ext. intro. apply fadd_0_l. }
  intros [->| ->] [->| ->]; cbn [nd_map2].
  - eexists. split; [reflexivity|]. left. now rewrite fadd_0_l.
  - eexists. split; [reflexivity|]. right. now rewrite map_map, Z.
  - eexists. split; [reflexivity|]. right. now rewrite map_map, Z.
  - rewrite arr_map2_seq. cbn [bind].
    eexists. split; [reflexivity|]. right. now rewrite Z.
Qed.

Lemma py_sum_from_zero (P : nat) (rs : list nd) (acc : nd) :
  nd_zero P acc -> Forall (nd_zero P) rs ->
  exists t, py_sum_from acc rs = Ok t /\ nd_zero P t.
Proof.
  revert acc. induction rs as [|r rs IH]; intros acc Ha Hr; cbn [py_sum_from].
  - now exists acc.
  - inversion Hr; subst.
    destruct (nd_add_zero Ha H1) as [t [-> Ht]]. cbn [bind]. now apply IH.
Qed.

Lemma nth_delta_g0 (c : nat) : c < 256 -> nth c delta_g0 NaN = Fin 0.
Proof.
  intro H. unfold delta_g0.
  rewrite (nth_indep _ NaN (Fin 0)) by now rewrite repeat_length.
  apply nth_repeat.
Qed.

Lemma nth_repeat_lt {A} (x d : A) (n i : nat) :
  i < n -> nth i (repeat x n) d = x.
Proof.
  intro H. rewrite (nth_indep _ d x) by now rewrite repeat_length.
  apply nth_repeat.
Qed.

Lemma samples_length (F P : nat) (frames : list (list nat)) :
  frames_wf F P frames -> length (samples frames) = F.
Proof. intros [H _]. unfold samples. now rewrite length_map. Qed.

(** The lookups of [dg[int(x)]] over frame [i], for any [dg] of 256
    entries. *)
Lemma dg_lookup_row (F P : nat) (dg : list fval) (frames : list (list nat))
    (i : nat) :
  frames_wf F P frames -> i < F -> length dg = 256 ->
  mapM (g_lookup dg) (map code (nth i frames []))
  = Ok (map (fun p => nth (code_at frames i p) dg NaN) (seq 0 P)).
Proof.
  intros W Hi Hd. rewrite (frame_row W Hi), !mapM_map.
  apply (mapM_ok _ (fun p => nth (code_at frames i p) dg NaN)).
  intros p Hp. apply in_seq in Hp. apply g_lookup_code.
  rewrite Hd. eapply code_at_bound; eauto. lia.
Qed.

Lemma assign_all_same (n : nat) (vals : list fval) :
  length vals = n -> assign_all n vals = Ok vals.
Proof. intro H. unfold assign_all. now rewrite H, Nat.eqb_refl. Qed.

Lemma calc_F_single_zero (F P : nat) (a E : list Qc) (w : list fval)
    (frames : list (list nat)) (k i : nat) :
  frames_wf F P frames -> length E = P -> length a = F -> length w = F ->
  k < F -> i < F -> (i <> k -> nth i w NaN = Fin 0) ->
  exists r,
    calc_F_single P (map Fin a) (Ar (map Fin E)) (delta_a0 F) (delta_b0 F)
      delta_g0 w (samples frames) k i = Ok r /\ nd_zero P r.
Proof.
  intros W HE Ha Hw Hk Hi Hwi. unfold calc_F_single.
  destruct (Nat.eqb_spec i k) as [->|Hne].
  { eexists. split; [reflexivity|now left]. }
  rewrite (getitem_nth (samples frames) []) by now rewrite (samples_length W).
  cbn [bind]. rewrite samples_nth, (dg_lookup_row delta_g0 W Hi eq_refl).
  cbn [bind]. rewrite assign_all_same by now rewrite length_map, length_seq.
  cbn [bind]. rewrite (getitem_nth w NaN) by lia. cbn [bind].
  rewrite (getitem_nth (map Fin a) NaN) by (rewrite length_map; lia).
  cbn [bind]. unfold delta_a0, delta_b0.
  rewrite (getitem_nth (repeat (Fin 1) F) NaN) by now rewrite repeat_length.
  cbn [bind].
  rewrite (getitem_nth (repeat (Fin 0) F) NaN) by now rewrite repeat_length.
  cbn [bind nd_all].
  rewrite (list_as_map_seq (map Fin E) NaN), length_map, HE, !map_map.
  rewrite arr_map2_seq. cbn [bind]. rewrite map_map.
  eexists. split; [reflexivity|]. right. f_equal.
  apply map_ext_in. intros p Hp. apply in_seq in Hp.
  rewrite (Hwi Hne), !nth_repeat_lt, nth_delta_g0, !nth_map_Fin
    by (try lia; eapply code_at_bound; eauto; lia).
  cbn [fsub fneg fadd fmul]. rewrite Qcmult_0_l.
  change (fdiv (Fin 0) (Fin 1)) with (Fin (0 / 1)). cbn [fmul].
  unfold Qcdiv. now rewrite !Qcmult_0_l.
Qed.

Lemma nd_iadd_zero (P : nat) (total : nd) :
  nd_zero P total ->
  nd_iadd total (map (fun _ => Fin 0) (seq 0 P))
  = Ok (map (fun _ => Fin 0) (seq 0 P)).
Proof.
  assert (Z : forall l : list nat,
            map (fun _ => fadd (Fin 0) (Fin 0)) l = map (fun _ => Fin 0) l).
  { intro l. apply map_ext. intro. apply fadd_0_l. }
  intros [->| ->]; cbn [nd_iadd].
  - now rewrite map_map, Z.
  - rewrite Nat.eqb_refl, zip_with_map. now rewrite Z.
Qed.

(** C4.  At the start point of the minimizer (every delta_a 1, every
    delta_b 0, every delta_g 0), with weight 1 for frame [k] and weight 0
    for every other frame, the forward model of frame [k] is 0 at every
    pixel. *)
Theorem calc_F_identity_point (F P : nat) (a b g E : list Qc) (w : list fval)
    (frames : list (list nat)) (k : nat) :
  frames_wf F P frames -> 0 < P -> length g = 256 -> length E = P ->
  length a = F -> length b = F -> length w = F -> k < F ->
  nth k w NaN = Fin 1 ->
  (forall i, i < F -> i <> k -> nth i w NaN = Fin 0) ->
  exists Fk,
    calc_F F P (map Fin a) (map Fin b) (map Fin g) (Ar (map Fin E))
      (delta_a0 F) (delta_b0 F) delta_g0 w (samples frames) k = Ok Fk /\
    length Fk = P /\
    forall p, p < P -> nth_error Fk p = Some (Fin 0).
Proof.
  intros W HP Hg HE Ha Hb Hw Hk Hwk Hwi.
  exists (map (fun _ => Fin 0) (seq 0 P)). split; [|split].
  - unfold calc_F.
    assert (R : exists rs,
              mapM (calc_F_single P (map Fin a) (Ar (map Fin E)) (delta_a0 F)
                      (delta_b0 F) delta_g0 w (samples frames) k) (seq 0 F)
              = Ok rs /\ Forall (nd_zero P) rs).
    { assert (G : forall l, Forall (fun i => i < F) l ->
                exists rs,
                  mapM (calc_F_single P (map Fin a) (Ar (map Fin E))
                          (delta_a0 F) (delta_b0 F) delta_g0 w
                          (samples frames) k) l = Ok rs /\
                  Forall (nd_zero P) rs).
      { induction l as [|i l IH]; intro Hl.
        - exists []. split; [reflexivity|constructor].
        - apply Forall_cons_iff in Hl. destruct Hl as [H1 H2].
          destruct (@calc_F_single_zero F P a E w frames k i
                      W HE Ha Hw Hk H1 (Hwi i H1)) as [r [Hr Zr]].
          destruct (IH H2) as [rs [Hrs Zrs]].
          exists (r :: rs). cbn [mapM]. rewrite Hr. cbn [bind].
          rewrite Hrs. cbn [bind]. split; [reflexivity|now constructor]. }
      apply G. apply Forall_forall. intros i Hi. apply in_seq in Hi. lia. }
    destruct R as [rs [-> Zrs]]. cbn [bind]. unfold py_sum.
    destruct (@py_sum_from_zero P rs (Sc (Fin 0))
                (or_introl eq_refl) Zrs) as [total [-> Zt]].
    cbn [bind]. rewrite (getitem_nth w NaN) by lia. cbn [bind].
    rewrite (getitem_nth (samples frames) [])
      by now rewrite (samples_length W).
    cbn [bind].
    rewrite samples_nth, (g_func_row (map Fin g) W Hk HP)
      by now rewrite length_map.
    cbn [bind].
    rewrite (getitem_nth (map Fin b) NaN) by (rewrite length_map; lia).
    cbn [bind nd_all].
    rewrite (getitem_nth (map Fin a) NaN) by (rewrite length_map; lia).
    cbn [bind].
    rewrite (list_as_map_seq (map Fin E) NaN), length_map, HE, !map_map.
    rewrite arr_map2_seq. cbn [bind]. rewrite map_map.
    rewrite <- (nd_iadd_zero Zt). f_equal.
    apply map_ext_in. intros p Hp. apply in_seq in Hp.
    rewrite Hwk, !nth_map_Fin
      by (try lia; rewrite Hg; eapply code_at_bound; eauto; lia).
    cbn [fsub fneg fadd fmul]. rewrite Qcplus_opp_r.
    now rewrite Qcmult_0_l.
  - now rewrite length_map, length_seq.
  - intros p Hp. now rewrite nth_error_map_seq.
Qed.

(** ** Shapes: the objective of the minimizer raises nothing *)

Lemma length_zip_with {A B C} (f : A -> B -> C) (l : list A) (m : list B) :
  length l = length m -> length (zip_with f l m) = length l.
Proof.
  revert m. induction l as [|x l IH]; intros [|y m] H; simpl in *;
    try discriminate; [reflexivity|]. f_equal. apply IH. lia.
Qed.

Lemma arr_map2_fits (f : fval -> fval -> fval) (l m : list fval) (P : nat) :
  length l = P -> length m = P ->
  exists r, arr_map2 f l m = Ok r /\ length r = P.
Proof.
  intros Hl Hm. exists (zip_with f l m). split.
  - apply arr_map2_same. lia.
  - rewrite length_zip_with; lia.
Qed.

Lemma mapM_total {A B} (f : A -> result B) (Q : B -> Prop) (l : list A) :
  (forall x, In x l -> exists y, f x = Ok y /\ Q y) ->
  exists ys, mapM f l = Ok ys /\ Forall Q ys /\ length ys = length l.
Proof.
  induction l as [|x l IH]; intro H.
  - exists []. repeat split. constructor.
  - destruct (H x (or_introl eq_refl)) as [y [Hy Qy]].
    destruct IH as [ys [Hys [Qys Len]]]; [intros; apply H; now right|].
    exists (y :: ys). cbn [mapM]. rewrite Hy. cbn [bind]. rewrite Hys.
    cbn [bind length]. repeat split; [now constructor|lia].
Qed.

Lemma nd_add_fits (P : nat) (x y : nd) :
  nd_fits P x -> nd_fits P y ->
  exists t, nd_map2 fadd x y = Ok t /\ nd_fits P t /\
            (arr_len P y -> arr_len P t).
Proof.
  destruct x as [u|l], y as [v|m]; cbn [nd_fits nd_map2]; intros Hx Hy.
  - eexists. split; [reflexivity|]. split; [exact I|].
    intros [l [E _]]. discriminate.
  - eexists. split; [reflexivity|]. cbn [nd_fits]. rewrite length_map.
    split; [assumption|]. intros _. eexists. split; [reflexivity|].
    now rewrite length_map.
  - eexists. split; [reflexivity|]. cbn [nd_fits]. rewrite length_map.
    split; [assumption|]. intros [l' [E _]]. discriminate.
  - destruct (@arr_map2_fits fadd l m P Hx Hy) as [r [-> Hr]]. cbn [bind].
    eexists. split; [reflexivity|]. split; [assumption|].
    intros _. now exists r.
Qed.

Lemma py_sum_from_fits (P : nat) (rs : list nd) (acc : nd) :
  nd_fits P acc -> Forall (nd_fits P) rs ->
  exists t, py_sum_from acc rs = Ok t /\ nd_fits P t.
Proof.
  revert acc. induction rs as [|r rs IH]; intros acc Ha Hr; cbn [py_sum_from].
  - now exists acc.
  - apply Forall_cons_iff in Hr. destruct Hr as [H1 H2].
    destruct (@nd_add_fits P acc r Ha H1) as [t [-> [Ht _]]]. cbn [bind].
    now apply IH.
Qed.

Lemma arr_len_fits (P : nat) (x : nd) : arr_len P x -> nd_fits P x.
Proof. intros [l [-> H]]. exact H. Qed.

Lemma py_sum_from_arr (P : nat) (rs : list nd) (acc : nd) :
  nd_fits P acc -> Forall (arr_len P) rs -> arr_len P acc \/ rs <> [] ->
  exists l, py_sum_from acc rs = Ok (Ar l) /\ length l = P.
Proof.
  revert acc. induction rs as [|r rs IH]; intros acc Ha Hr Hne;
    cbn [py_sum_from].
  - destruct Hne as [[l [-> Hl]]|Hne]; [now exists l|congruence].
  - apply Forall_cons_iff in Hr. destruct Hr as [H1 H2].
    destruct (@nd_add_fits P acc r Ha (arr_len_fits H1))
      as [t [-> [Ht Harr]]].
    cbn [bind]. apply IH; auto.
Qed.

Lemma nd_iadd_fits (P : nat) (total : nd) (x : list fval) :
  nd_fits P total -> length x = P ->
  exists r, nd_iadd total x = Ok r /\ length r = P.
Proof.
  destruct total as [u|l]; cbn [nd_fits nd_iadd]; intros Ht Hx.
  - eexists. split; [reflexivity|]. now rewrite length_map.
  - rewrite Ht, Hx, Nat.eqb_refl. eexists. split; [reflexivity|].
    rewrite length_zip_with; lia.
Qed.

Lemma calc_F_single_fits (F P : nat) (a Es da db dg w : list fval)
    (frames : list (list nat)) (k i : nat) :
  frames_wf F P frames -> length Es = P -> length a = F -> length w = F ->
  length da = F -> length db = F -> length dg = 256 -> k < F -> i < F ->
  exists r,
    calc_F_single P a (Ar Es) da db dg w (samples frames) k i = Ok r /\
    nd_fits P r.
Proof.
  intros W HE Ha Hw Hda Hdb Hdg Hk Hi. unfold calc_F_single.
  destruct (Nat.eqb_spec i k) as [->|Hne].
  { eexists. split; [reflexivity|exact I]. }
  rewrite (getitem_nth (samples frames) []) by now rewrite (samples_length W).
  cbn [bind]. rewrite samples_nth, (dg_lookup_row dg W Hi Hdg).
  cbn [bind]. rewrite assign_all_same by now rewrite length_map, length_seq.
  cbn [bind]. rewrite (getitem_nth w NaN) by lia. cbn [bind].
  rewrite (getitem_nth a NaN) by lia. cbn [bind].
  rewrite (getitem_nth da NaN) by lia. cbn [bind].
  rewrite (getitem_nth db NaN) by lia. cbn [bind nd_all].
  match goal with
  | |- context [arr_map2 ?f ?l ?m] =>
      destruct (@arr_map2_fits f l m P) as [t [-> Ht]];
        [now rewrite !length_map, length_seq|now rewrite length_map|]
  end.
  cbn [bind]. eexists. split; [reflexivity|]. cbn [nd_fits].
  now rewrite length_map.
Qed.

Lemma calc_F_fits (F P : nat) (a b g Es da db dg w : list fval)
    (frames : list (list nat)) (k : nat) :
  frames_wf F P frames -> 0 < P -> length g = 256 -> length Es = P ->
  length a = F -> length b = F -> length w = F ->
  length da = F -> length db = F -> length dg = 256 -> k < F ->
  exists Fk,
    calc_F F P a b g (Ar Es) da db dg w (samples frames) k = Ok Fk /\
    length Fk = P.
Proof.
  intros W HP Hg HE Ha Hb Hw Hda Hdb Hdg Hk. unfold calc_F.
  destruct (@mapM_total _ _
              (calc_F_single P a (Ar Es) da db dg w (samples frames) k)
              (nd_fits P) (seq 0 F)) as [rs [-> [Hrs _]]].
  { intros i Hi. apply in_seq in Hi.
    eapply calc_F_single_fits; eauto. lia. }
  cbn [bind]. unfold py_sum.
  destruct (@py_sum_from_fits P rs (Sc (Fin 0)) I Hrs) as [total [-> Ht]].
  cbn [bind]. rewrite (getitem_nth w NaN) by lia. cbn [bind].
  rewrite (getitem_nth (samples frames) []) by now rewrite (samples_length W).
  cbn [bind]. rewrite samples_nth, (g_func_row g W Hk HP Hg). cbn [bind].
  rewrite (getitem_nth b NaN) by lia. cbn [bind nd_all].
  rewrite (getitem_nth a NaN) by lia. cbn [bind].
  match goal with
  | |- context [arr_map2 ?f ?l ?m] =>
      destruct (@arr_map2_fits f l m P) as [t [-> Hlt]];
        [now rewrite !length_map, length_seq|now rewrite length_map|]
  end.
  cbn [bind]. apply nd_iadd_fits; [assumption|now rewrite length_map].
Qed.

Lemma calc_total_F_error_total (F P : nat) (s : state) (Es : list fval)
    (frames : list (list nat)) (args : list fval) :
  frames_wf F P frames -> 0 < F -> 0 < P ->
  st_green_channel s = samples frames -> st_E s = Ar Es -> length Es = P ->
  length (st_g s) = 256 -> length (st_a s) = F -> length (st_b s) = F ->
  length (st_w s) = F -> length (st_sigma s) = F ->
  length (st_e s) = F -> Forall (fun col => length col = P) (st_e s) ->
  length args = 2 * F + 256 ->
  exists v, calc_total_F_error F P s args = Ok v.
Proof.
  intros W HF HP Hgc HE HEs Hg Ha Hb Hw Hs He Hcols Hargs.
  unfold calc_total_F_error. rewrite Hgc, HE.
  destruct (@mapM_total _ _
    (calc_total_F_error_single F P s (Ar Es) (firstn F args)
       (firstn F (skipn F args)) (skipn (2 * F) args) (st_w s)
       (samples frames)) (arr_len P) (seq 0 F)) as [rs [-> [Hrs Len]]].
  { intros k Hk. apply in_seq in Hk. unfold calc_total_F_error_single.
    destruct (@calc_F_fits F P (st_a s) (st_b s) (st_g s) Es (firstn F args)
                (firstn F (skipn F args)) (skipn (2 * F) args) (st_w s)
                frames k) as [Fk [-> HFk]];
      rewrite ?length_firstn, ?length_skipn; try assumption; try lia.
    cbn [bind]. rewrite (getitem_nth (st_e s) []) by lia. cbn [bind].
    assert (Hcol : length (nth k (st_e s) []) = P).
    { rewrite Forall_forall in Hcols. apply Hcols, nth_In. lia. }
    destruct (@arr_map2_fits fsub (nth k (st_e s) []) Fk P Hcol HFk)
      as [d [-> Hd]].
    cbn [bind]. rewrite (getitem_nth (st_sigma s) NaN) by lia. cbn [bind].
    eexists. split; [reflexivity|]. eexists. split; [reflexivity|].
    now rewrite length_map. }
  cbn [bind]. unfold py_sum.
  destruct (@py_sum_from_arr P rs (Sc (Fin 0)) I Hrs) as [l [-> _]].
  { right. intro E. rewrite E, length_seq in Len. simpl in Len. lia. }
  cbn [bind nd_sum]. now eexists.
Qed.

Lemma calc_e_shape (F P : nat) (np_empty : nat -> nat -> fval)
    (g E a b : list fval) (frames : list (list nat)) :
  frames_wf F P frames -> 0 < P -> length g = 256 -> length E = P ->
  length a = F -> length b = F ->
  exists pool_errors median_errors,
    calc_e F P np_empty g (samples frames) (Ar E) a b
    = Ok (pool_errors, median_errors) /\
    length pool_errors = F /\
    Forall (fun col => length col = P) pool_errors /\
    length median_errors = F.
Proof.
  intros W HP Hg HE Ha Hb. unfold calc_e.
  destruct (@mapM_total _ _
    (calc_e_frame P np_empty g (samples frames) (Ar E) a b)
    (fun r => length (fst r) = P) (seq 0 F)) as [rs [-> [Hrs Len]]].
  { intros k Hk. apply in_seq in Hk.
    erewrite calc_e_frame_value; eauto; [|lia].
    eexists. split; [reflexivity|]. cbn [fst].
    now rewrite length_map, length_seq. }
  cbn [bind]. do 2 eexists. split; [reflexivity|].
  rewrite !length_map, Len, length_seq. repeat split.
  apply Forall_map. exact Hrs.
Qed.

(** ** Step 4: the loop *)

Lemma damped_step_same (x dx : list fval) :
  length x = length dx ->
  damped_step x dx = Ok (zip_with fsub x (map (fmul LEARN_RATE) dx)).
Proof.
  intro H. unfold damped_step. apply arr_map2_same. now rewrite length_map.
Qed.

(** C5.  One pass of the loop body sets the weight of every frame to
    [1 / median_errors[k]] and replaces gain, bias and curve by
    [x - LEARN_RATE * dx], [dx] being the correction [calc_gradients]
    returns and [LEARN_RATE] the constant 0.1.  The vectors keep their
    lengths, so the next pass starts from a state of the same shape. *)
Theorem iteration_updates (F P : nat) (data : list (list pixel))
    (np_empty : nat -> nat -> fval)
    (minimize : (list fval -> result fval) -> list fval -> result (list fval))
    (plot : state -> result unit) (frames : list (list nat)) (s : state) :
  minimizer_contract minimize ->
  frames_wf F P frames -> 0 < F -> 0 < P ->
  map (map green) data = samples frames ->
  length (st_a s) = F -> length (st_b s) = F -> length (st_w s) = F ->
  length (st_g s) = 256 ->
  exists E pool_errors median_errors da db dg s',
    calc_E F (st_g s) (st_w s) (samples frames) (st_b s) (st_a s) = Ok E /\
    calc_e F P np_empty (st_g s) (samples frames) E (st_a s) (st_b s)
    = Ok (pool_errors, median_errors) /\
    calc_gradients F P minimize
      (after_residuals (samples frames) E pool_errors median_errors s)
    = Ok (da, db, dg) /\
    iteration F P data np_empty minimize plot s = (s', plot s') /\
    st_w s' = map (fdiv (Fin 1)) median_errors /\
    st_a s' = zip_with fsub (st_a s) (map (fmul LEARN_RATE) da) /\
    st_b s' = zip_with fsub (st_b s) (map (fmul LEARN_RATE) db) /\
    st_g s' = zip_with fsub (st_g s) (map (fmul LEARN_RATE) dg) /\
    length (st_a s') = F /\ length (st_b s') = F /\ length (st_w s') = F /\
    length (st_g s') = 256.
Proof.
  intros Hmin W HF HP Hdata Ha Hb Hw Hg.
  pose proof (@calc_E_value F P (st_g s) (st_w s) (st_b s) (st_a s) frames
                W HF HP Hg Hw Hb Ha) as HE.
  set (Es := map (irradiance_terms (st_w s) (st_b s) (st_a s) (st_g s) frames)
               (seq 0 P)) in HE.
  assert (HEs : length Es = P) by (unfold Es; now rewrite length_map, length_seq).
  destruct (@calc_e_shape F P np_empty (st_g s) Es (st_a s) (st_b s) frames
              W HP Hg HEs Ha Hb) as [pe [me [He [Lpe [Cpe Lme]]]]].
  set (mid := after_residuals (samples frames) (Ar Es) pe me s).
  set (args := repeat (Fin 1) F ++ repeat (Fin 0) (F + 256)).
  assert (Largs : length args = 2 * F + 256).
  { unfold args. rewrite length_app, !repeat_length. lia. }
  destruct (Hmin (calc_total_F_error F P mid) args) as [x [Hx Lx]].
  { intros y Hy. apply (@calc_total_F_error_total F P mid Es frames y);
      try assumption; try reflexivity; cbn;
      try rewrite length_map; try assumption; lia. }
  assert (Hgrad : calc_gradients F P minimize mid
                  = Ok (firstn F x, firstn F (skipn F x), skipn (2 * F) x)).
  { unfold calc_gradients. fold args. now rewrite Hx. }
  exists (Ar Es), pe, me, (firstn F x), (firstn F (skipn F x)),
         (skipn (2 * F) x).
  eexists. split; [exact HE|]. split; [exact He|]. split; [exact Hgrad|].
  split.
  - unfold iteration, and_then, eval, assign. st_simpl.
    rewrite Hdata, HE. st_simpl. rewrite He. st_simpl.
    match goal with
    | |- context [calc_gradients F P minimize ?d] => change d with mid
    end.
    rewrite Hgrad. st_simpl. subst mid. st_simpl.
    rewrite damped_step_same by (rewrite length_firstn; lia). st_simpl.
    rewrite damped_step_same
      by (rewrite length_firstn, length_skipn; lia). st_simpl.
    rewrite damped_step_same by (rewrite length_skipn; lia). st_simpl.
    reflexivity.
  - st_simpl. repeat split; try reflexivity;
      rewrite ?length_zip_with;
      rewrite ?length_map, ?length_firstn, ?length_skipn; lia.
Qed.

(** C7.  With an iteration count of 0 the loop body never runs: the
    globals, gain, bias and curve among them, are returned as they were. *)
Theorem calibration_loop_zero (F P : nat) (data : list (list pixel))
    (np_empty : nat -> nat -> fval)
    (minimize : (list fval -> result fval) -> list fval -> result (list fval))
    (plot : state -> result unit) (s : state) :
  calibration_loop F P data np_empty minimize plot 0 s = (s, Ok tt) /\
  let s' := fst (calibration_loop F P data np_empty minimize plot 0 s) in
  st_a s' = st_a s /\ st_b s' = st_b s /\ st_g s' = st_g s.
Proof. split; [reflexivity|]. cbn. repeat split. Qed.

(** ** Inference *)

Lemma identity_curve_length : length identity_curve = 256.
Proof. unfold identity_curve. now rewrite length_map, length_seq. Qed.

Lemma identity_curve_nth (c : nat) :
  c < 256 -> nth c identity_curve NaN = code c.
Proof. intro H. unfold identity_curve. now apply nth_map_seq. Qed.

Lemma unit_gain_zero_bias (q : Qc) :
  fdiv (fsub (Fin q) (Fin 0)) (Fin 1) = Fin q.
Proof.
  cbn [fsub fneg fadd]. change (fdiv (Fin (q + - 0)) (Fin 1))
    with (Fin ((q + - 0) / 1)). f_equal. field. exact Q_apart_0_1.
Qed.

(** C8.  With gain 1, bias 0 and the identity curve, [calibrate] returns
    a frame of integer codes in [0, 255] unchanged.  The frame holds at
    least one sample. *)
Theorem calibrate_identity (cs : list nat) :
  cs <> [] -> Forall (fun c => c < 256) cs ->
  calibrate (map code cs) (Sc (Fin 1)) (Sc (Fin 0)) identity_curve
  = Ok (Ar (map code cs)).
Proof.
  intros Hne Hc. unfold calibrate.
  change (vectorize (g_lookup identity_curve) (map code cs))
    with (g_func identity_curve (map code cs)).
  rewrite g_func_codes by (rewrite ?identity_curve_length; assumption).
  cbn [bind nd_map2]. rewrite !map_map. do 2 f_equal.
  apply map_ext_in. intros c Hin.
  rewrite Forall_forall in Hc. rewrite identity_curve_nth by auto.
  apply unit_gain_zero_bias.
Qed.

(** ** Truncation and wrap-around in the curve lookup *)

Lemma QcZ_le_l (z : Z) (x : Qc) :
  (QcZ z <= x)%Qc <-> (z * Zpos (Qden x) <= Qnum x)%Z.
Proof.
  unfold Qcle. rewrite QcZ_this. unfold Qle. cbn [Qnum Qden inject_Z].
  now rewrite Z.mul_1_r.
Qed.

Lemma QcZ_le_r (z : Z) (x : Qc) :
  (x <= QcZ z)%Qc <-> (Qnum x <= z * Zpos (Qden x))%Z.
Proof.
  unfold Qcle. rewrite QcZ_this. unfold Qle. cbn [Qnum Qden inject_Z].
  now rewrite Z.mul_1_r.
Qed.

Lemma QcZ_lt_l (z : Z) (x : Qc) :
  (QcZ z < x)%Qc <-> (z * Zpos (Qden x) < Qnum x)%Z.
Proof.
  unfold Qclt. rewrite QcZ_this. unfold Qlt. cbn [Qnum Qden inject_Z].
  now rewrite Z.mul_1_r.
Qed.

Lemma QcZ_lt_r (z : Z) (x : Qc) :
  (x < QcZ z)%Qc <-> (Qnum x < z * Zpos (Qden x))%Z.
Proof.
  unfold Qclt. rewrite QcZ_this. unfold Qlt. cbn [Qnum Qden inject_Z].
  now rewrite Z.mul_1_r.
Qed.


(** [int(x)] of a sample of [[-256, -1]] lies in [[-256, -1]]. *)
Lemma py_int_negative (x : Qc) :
  (QcZ (-256) <= x)%Qc -> (x <= QcZ (-1))%Qc ->
  exists i, py_int (Fin x) = Ok i /\ (-256 <= i <= -1)%Z.
Proof.
  intros Hl Hu. apply QcZ_le_l in Hl. apply QcZ_le_r in Hu.
  eexists. split; [reflexivity|]. split.
  - rewrite <- (Z.quot_mul (-256) (Zpos (Qden x))) by lia.
    apply Z.quot_le_mono; lia.
  - replace (-1)%Z with (Z.quot (- Zpos (Qden x)) (Zpos (Qden x))).
    + apply Z.quot_le_mono; lia.
    + rewrite Z.quot_opp_l, Z.quot_same by lia. reflexivity.
Qed.

(** [int(x)] of a sample of [(-1, 0)] is 0. *)
Lemma py_int_above_minus_one (x : Qc) :
  (QcZ (-1) < x)%Qc -> (x < 0)%Qc -> py_int (Fin x) = Ok 0%Z.
Proof.
  intros Hl Hu. change 0%Qc with (QcZ 0) in Hu.
  apply QcZ_lt_l in Hl. apply QcZ_lt_r in Hu.
  cbn [py_int]. f_equal.
  rewrite <- (Z.opp_involutive (Qnum x)), Z.quot_opp_l by lia.
  rewrite Z.quot_small by lia. reflexivity.
Qed.

Lemma getitem_int_fails (g : list fval) (i : Z) :
  length g = 256 ->
  (getitem_int g i = Raise IndexError <-> (256 <= i \/ i < -256)%Z).
Proof.
  intro Hg. unfold getitem_int. rewrite Hg.
  destruct (Z.leb_spec 0 i).
  - destruct (Z_lt_le_dec i 256).
    + rewrite (getitem_nth g NaN) by lia. split; [discriminate|lia].
    + rewrite getitem_out by lia. split; [lia|reflexivity].
  - destruct (Z.leb_spec (- Z.of_nat 256) i).
    + rewrite (getitem_nth g NaN) by lia. split; [discriminate|lia].
    + split; [lia|reflexivity].
Qed.

(** C9, as the code has it.  A sample in [[-256, -1]] is looked up at
    index [256 + int(x)], counting from the end of the curve; a sample in
    [(-1, 0)] truncates to 0 and is looked up at index 0; the lookup fails
    exactly when [int(x) >= 256] or [int(x) < -256]. *)
Theorem g_lookup_negative_sample (g : list fval) (x : Qc) :
  length g = 256 ->
  ((QcZ (-256) <= x)%Qc -> (x <= QcZ (-1))%Qc ->
   exists i v,
     py_int (Fin x) = Ok i /\ (-256 <= i <= -1)%Z /\
     nth_error g (Z.to_nat (256 + i)) = Some v /\
     g_lookup g (Fin x) = Ok v) /\
  ((QcZ (-1) < x)%Qc -> (x < 0)%Qc ->
   exists v, nth_error g 0 = Some v /\ g_lookup g (Fin x) = Ok v) /\
  (forall i, py_int (Fin x) = Ok i ->
     (g_lookup g (Fin x) = Raise IndexError <-> (256 <= i \/ i < -256)%Z)).
Proof.
  intro Hg. split; [|split].
  - intros Hl Hu. destruct (py_int_negative Hl Hu) as [i [Hi Hb]].
    exists i, (nth (Z.to_nat (256 + i)) g NaN). split; [exact Hi|].
    split; [exact Hb|]. split.
    + apply nth_error_nth'. lia.
    + unfold g_lookup. rewrite Hi. cbn [bind]. unfold getitem_int. rewrite Hg.
      destruct (Z.leb_spec 0 i); [lia|].
      destruct (Z.leb_spec (- Z.of_nat 256) i); [|lia].
      apply getitem_nth. lia.
  - intros Hl Hu. exists (nth 0 g NaN). split.
    + apply nth_error_nth'. lia.
    + unfold g_lookup. rewrite (py_int_above_minus_one Hl Hu). cbn [bind].
      unfold getitem_int. cbn. apply getitem_nth. lia.
  - intros i Hi. unfold g_lookup. rewrite Hi. cbn [bind].
    now apply getitem_int_fails.
Qed.

(** C9 as stated fails at the sample -1/2: it lies in [[-256, 0)], its
    lookup returns the curve entry 0, and the curve has no entry at index
    [256 + int(-1/2) = 256]. *)
Lemma g_lookup_minus_half :
  (QcZ (-256) <= Q2Qc (-1 # 2))%Qc /\ (Q2Qc (-1 # 2) < 0)%Qc /\
  py_int (Fin (Q2Qc (-1 # 2))) = Ok 0%Z /\
  g_lookup identity_curve (Fin (Q2Qc (-1 # 2))) = Ok (code 0) /\
  nth_error identity_curve (Z.to_nat (256 + 0)) = None.
Proof.
  split; [|split; [|split; [|split]]].
  - apply QcZ_le_l. vm_compute. discriminate.
  - apply Qc_ltb_true. vm_compute. reflexivity.
  - vm_compute. reflexivity.
  - vm_compute. reflexivity.
  - vm_compute. reflexivity.
Qed.



(** C6, as the code has it.  [calc_E] checks no gain: whatever the gain
    vector, zero entries included, it divides and returns an irradiance
    map, the sum of the quotients in floating-point arithmetic; a quotient
    by a zero gain is an infinity or NaN, never a finite value. *)
Theorem calc_E_any_gain (F P : nat) (g w b a : list fval)
    (frames : list (list nat)) :
  frames_wf F P frames -> 0 < F -> 0 < P -> length g = 256 ->
  length w = F -> length b = F -> length a = F ->
  (exists E,
     calc_E F g w (samples frames) b a = Ok (Ar E) /\
     length E = P /\
     forall p, p < P ->
       nth_error E p = Some (irradiance_terms w b a g frames p)) /\
  (forall x, ~ is_fin (fdiv x (Fin 0))).
Proof.
  intros W HF HP Hg Hw Hb Ha. split.
  - eexists. split; [|split].
    + eapply calc_E_value; eauto.
    + now rewrite length_map, length_seq.
    + intros p Hp. now rewrite nth_error_map_seq.
  - intros [q| | |]; cbn; try tauto.
    destruct (Z.sgn (Qnum q)); cbn; tauto.
Qed.

(** C6 as stated fails on one frame of gain 0: no error is raised, the
    division is carried out and the estimate is infinite. *)
Lemma calc_E_zero_gain :
  calc_E 1 identity_curve [Fin 1] (samples [[5]]) [Fin 0] [Fin 0]
  = Ok (Ar [PInf]) /\
  ~ raises (calc_E 1 identity_curve [Fin 1] (samples [[5]]) [Fin 0] [Fin 0]).
Proof.
  assert (E : calc_E 1 identity_curve [Fin 1] (samples [[5]]) [Fin 0] [Fin 0]
              = Ok (Ar [PInf])) by (vm_compute; reflexivity).
  split; [exact E|]. rewrite E. intros [x Hx]. discriminate.
Qed.

(* ================================================================== *)
(** * The theorems at concrete inputs *)

Lemma calc_E_weighted_sum_witness :
  exists E,
    calc_E 2 (map Fin identity_curve_Q) (map Fin [Q2Qc (1 # 2); Q2Qc (1 # 2)])
      (samples [[10; 20]; [20; 40]]) (map Fin [0%Qc; 0%Qc])
      (map Fin [1%Qc; Q2Qc (2 # 1)])
    = Ok (Ar E) /\
    length E = 2 /\
    nth_error E 1
    = Some (Fin (irradiance_formula [Q2Qc (1 # 2); Q2Qc (1 # 2)] [0%Qc; 0%Qc]
                   [1%Qc; Q2Qc (2 # 1)] identity_curve_Q
                   [[10; 20]; [20; 40]] 1)).
Proof.
  apply (@calc_E_weighted_sum 2 2); try solve [shape].
  repeat constructor; apply Qc_nonzero; reflexivity.
Defined.

Lemma calc_e_pooled_residuals_witness :
  exists pool_errors median_errors,
    calc_e 2 3 (fun _ _ => NaN) identity_curve
      (samples [[1; 1; 4]; [2; 3; 3]]) (Ar [code 1; code 2; code 3])
      [Fin 1; Fin 1] [Fin 0; Fin 0]
    = Ok (pool_errors, median_errors) /\
    forall k, k < 2 ->
      (forall p, p < 3 ->
         exists pool_p,
           pool (samples [[1; 1; 4]; [2; 3; 3]]) k
             (code (code_at [[1; 1; 4]; [2; 3; 3]] k p)) (Fin 1)
           = Ok pool_p /\
           nth_error (nth k pool_errors []) p
           = Some (pooled_residual identity_curve [code 1; code 2; code 3]
                     [Fin 1; Fin 1] [Fin 0; Fin 0]
                     [[1; 1; 4]; [2; 3; 3]] k pool_p)) /\
      nth_error median_errors k
      = Some (fmul (Fin c1265)
                (np_median
                   (map (fun p =>
                           fsub (raw_residual identity_curve
                                   [code 1; code 2; code 3] [Fin 1; Fin 1]
                                   [Fin 0; Fin 0] [[1; 1; 4]; [2; 3; 3]] k p)
                                (nth p (nth k pool_errors []) NaN))
                        (seq 0 3)))).
Proof.
  apply (@calc_e_pooled_residuals 2 3); solve [shape].
Defined.

Lemma calc_F_identity_point_witness :
  exists Fk,
    calc_F 2 2 (map Fin [1%Qc; Q2Qc (2 # 1)]) (map Fin [0%Qc; 0%Qc])
      (map Fin identity_curve_Q) (Ar (map Fin [Q2Qc (10 # 1); Q2Qc (20 # 1)]))
      (delta_a0 2) (delta_b0 2) delta_g0 [Fin 1; Fin 0]
      (samples [[10; 20]; [20; 40]]) 0 = Ok Fk /\
    length Fk = 2 /\
    forall p, p < 2 -> nth_error Fk p = Some (Fin 0).
Proof.
  apply (@calc_F_identity_point 2 2); try solve [shape].
  intros i Hi Hne. destruct i as [|[|i]]; [lia|reflexivity|lia].
Defined.

Lemma calibrate_identity_witness :
  calibrate (map code [3; 255]) (Sc (Fin 1)) (Sc (Fin 0)) identity_curve
  = Ok (Ar (map code [3; 255])).
Proof.
  apply calibrate_identity; [discriminate|shape].
Defined.

Lemma calc_E_any_gain_witness :
  (exists E,
     calc_E 1 identity_curve [Fin 1] (samples [[5]]) [Fin 0] [Fin 0]
     = Ok (Ar E) /\
     length E = 1 /\
     forall p, p < 1 ->
       nth_error E p
       = Some (irradiance_terms [Fin 1] [Fin 0] [Fin 0] identity_curve
                 [[5]] p)) /\
  (forall x, ~ is_fin (fdiv x (Fin 0))).
Proof.
  apply (@calc_E_any_gain 1 1); solve [shape].
Defined.

Lemma g_lookup_negative_sample_witness :
  ((QcZ (-256) <= Q2Qc (-3 # 2))%Qc -> (Q2Qc (-3 # 2) <= QcZ (-1))%Qc ->
   exists i v,
     py_int (Fin (Q2Qc (-3 # 2))) = Ok i /\ (-256 <= i <= -1)%Z /\
     nth_error identity_curve (Z.to_nat (256 + i)) = Some v /\
     g_lookup identity_curve (Fin (Q2Qc (-3 # 2))) = Ok v) /\
  ((QcZ (-1) < Q2Qc (-3 # 2))%Qc -> (Q2Qc (-3 # 2) < 0)%Qc ->
   exists v, nth_error identity_curve 0 = Some v /\
             g_lookup identity_curve (Fin (Q2Qc (-3 # 2))) = Ok v) /\
  (forall i, py_int (Fin (Q2Qc (-3 # 2))) = Ok i ->
     (g_lookup identity_curve (Fin (Q2Qc (-3 # 2))) = Raise IndexError
      <-> (256 <= i \/ i < -256)%Z)).
Proof.
  apply g_lookup_negative_sample. reflexivity.
Defined.


Lemma iteration_updates_witness :
  exists E pool_errors median_errors da db dg s',
    calc_E 1 (st_g (initial_state 1 2)) (st_w (initial_state 1 2))
      (samples [[10; 20]]) (st_b (initial_state 1 2))
      (st_a (initial_state 1 2)) = Ok E /\
    calc_e 1 2 (fun _ _ => NaN) (st_g (initial_state 1 2))
      (samples [[10; 20]]) E (st_a (initial_state 1 2))
      (st_b (initial_state 1 2))
    = Ok (pool_errors, median_errors) /\
    calc_gradients 1 2 (fun _ x0 => Ok x0)
      (after_residuals (samples [[10; 20]]) E pool_errors median_errors
         (initial_state 1 2))
    = Ok (da, db, dg) /\
    iteration 1 2 [[(Fin 0, code 10, Fin 0); (Fin 0, code 20, Fin 0)]]
      (fun _ _ => NaN) (fun _ x0 => Ok x0) (fun _ => Raise TypeError)
      (initial_state 1 2)
    = (s', Raise TypeError) /\
    st_w s' = map (fdiv (Fin 1)) median_errors /\
    st_a s' = zip_with fsub (st_a (initial_state 1 2))
                (map (fmul LEARN_RATE) da) /\
    st_b s' = zip_with fsub (st_b (initial_state 1 2))
                (map (fmul LEARN_RATE) db) /\
    st_g s' = zip_with fsub (st_g (initial_state 1 2))
                (map (fmul LEARN_RATE) dg) /\
    length (st_a s') = 1 /\ length (st_b s') = 1 /\ length (st_w s') = 1 /\
    length (st_g s') = 256.
Proof.
  apply (@iteration_updates 1 2
           [[(Fin 0, code 10, Fin 0); (Fin 0, code 20, Fin 0)]]
           (fun _ _ => NaN) (fun _ x0 => Ok x0) (fun _ => Raise TypeError)
           [[10; 20]] (initial_state 1 2)); try solve [shape].
  intros f x0 _. exists x0. split; reflexivity.
Defined.

(* ================================================================== *)
(** * Further properties of the code *)

(** ** Integer samples *)

Lemma QcZ_lt (a b : Z) : (QcZ a < QcZ b)%Qc <-> (a < b)%Z.
Proof.
  rewrite QcZ_lt_r, QcZ_this. cbn [Qnum Qden inject_Z]. lia.
Qed.

Lemma QcZ_sub (a b : Z) : (QcZ a + - QcZ b)%Qc = QcZ (a - b).
Proof.
  apply Qc_is_canon. unfold Qcplus, Qcopp, QcZ, Q2Qc. cbn [this].
  rewrite !Qred_correct. unfold Z.sub.
  rewrite inject_Z_plus, inject_Z_opp. reflexivity.
Qed.

Lemma QcZ_opp (a : Z) : (- QcZ a)%Qc = QcZ (- a).
Proof.
  apply Qc_is_canon. unfold Qcopp, QcZ, Q2Qc. cbn [this].
  rewrite !Qred_correct. now rewrite inject_Z_opp.
Qed.

(** Two integer codes are closer than 1 exactly when they are equal. *)
Lemma code_close (c c' : nat) :
  flt (fabs (fsub (code c) (code c'))) (Fin 1) = (c =? c').
Proof.
  assert (L : forall a b, Qc_ltb (QcZ a) (QcZ b) = (a <? b)%Z).
  { intros a b. destruct (Z.ltb_spec a b) as [H|H].
    - apply Qc_ltb_true, QcZ_lt, H.
    - destruct (Qc_ltb (QcZ a) (QcZ b)) eqn:E; [|reflexivity].
      apply Qc_ltb_true in E. apply (proj1 (QcZ_lt a b)) in E. lia. }
  unfold code. cbn [fsub fneg fadd fabs flt]. rewrite QcZ_sub.
  change 0%Qc with (QcZ 0). change 1%Qc with (QcZ 1). rewrite L.
  destruct (Z.ltb_spec (Z.of_nat c - Z.of_nat c') 0);
    rewrite ?QcZ_opp, L;
    destruct (Nat.eqb_spec c c');
    match goal with |- (?a <? 1)%Z = _ => destruct (Z.ltb_spec a 1) end;
    lia.
Qed.

(** ** Pools *)

Lemma nonzero_from_sorted (mask : list bool) (i : nat) :
  StronglySorted lt (nonzero_from i mask).
Proof.
  revert i. induction mask as [|m mask IH]; intro i; simpl; [constructor|].
  destruct m; [|apply IH]. constructor; [apply IH|].
  apply Forall_forall. intros q Hq. apply nonzero_from_bound in Hq. lia.
Qed.

(** X1.  For a frame index in range, [pool] raises nothing, whatever the
    sample and the tolerance: it returns positions of the frame in
    strictly increasing order.  For a frame index out of range it raises
    IndexError. *)
Theorem pool_positions (data : list (list fval)) (k : nat) (z eps : fval) :
  (k < length data ->
   exists l,
     pool data k z eps = Ok l /\
     StronglySorted lt l /\
     Forall (fun q => q < length (nth k data [])) l) /\
  (length data <= k -> pool data k z eps = Raise IndexError).
Proof.
  split; intro Hk; unfold pool.
  - rewrite (getitem_nth data []) by assumption. cbn [bind].
    eexists. split; [reflexivity|]. split.
    + apply nonzero_from_sorted.
    + apply Forall_forall. intros q Hq. apply nonzero_from_bound in Hq.
      rewrite length_map in Hq. lia.
  - now rewrite getitem_out.
Qed.

Lemma pool_of_same_code (F P : nat) (frames : list (list nat)) (k p q : nat) :
  frames_wf F P frames -> k < F ->
  (In q (pool_of frames k p) <->
   q < P /\ code_at frames k q = code_at frames k p).
Proof.
  intros W Hk. destruct (frames_wf_nth W Hk) as [HL _].
  unfold pool_of, nonzero. rewrite nonzero_from_spec, Nat.sub_0_r.
  rewrite !nth_error_map.
  destruct (nth_error (nth k frames []) q) as [c|] eqn:E; cbn [option_map].
  - assert (Hq : q < P).
    { rewrite <- HL. apply nth_error_Some. congruence. }
    assert (Hc : code_at frames k q = c).
    { unfold code_at. now apply nth_error_nth. }
    rewrite code_close, Hc. split.
    + intros [_ H]. injection H as H. apply Nat.eqb_eq in H. now split.
    + intros [_ H]. split; [lia|]. f_equal. now apply Nat.eqb_eq.
  - apply nth_error_None in E. split; [intros [_ H]; discriminate|].
    intros [H _]. lia.
Qed.

(** X2.  On integer codes and with the default tolerance 1, the pool of
    pixel [p] in frame [k] is exactly the set of positions of the frame
    that hold the same code as [p]. *)
Theorem pool_is_same_code (F P : nat) (frames : list (list nat)) (k p : nat) :
  frames_wf F P frames -> k < F ->
  exists l,
    pool (samples frames) k (code (code_at frames k p)) (Fin 1) = Ok l /\
    forall q, In q l <-> q < P /\ code_at frames k q = code_at frames k p.
Proof.
  intros W Hk. exists (pool_of frames k p). split.
  - eapply pool_value; eauto.
  - intro q. eapply pool_of_same_code; eauto.
Qed.

Lemma nonzero_from_all_false (mask : list bool) (i : nat) :
  Forall (fun m => m = false) mask -> nonzero_from i mask = [].
Proof.
  revert i. induction mask as [|m mask IH]; intros i H; simpl; [reflexivity|].
  apply Forall_cons_iff in H. destruct H as [-> H]. now apply IH.
Qed.


Lemma fabs_not_below (y : fval) (q : Qc) :
  (q <= 0)%Qc -> flt (fabs y) (Fin q) = false.
Proof.
  intro Hq. destruct y as [r| | |]; cbn [fabs flt]; try reflexivity.
  destruct (Qc_ltb (if Qc_ltb r 0 then (- r)%Qc else r) q) eqn:H;
    [|reflexivity].
  apply Qc_ltb_true in H. exfalso.
  assert (Hneg : ((if Qc_ltb r 0 then (- r)%Qc else r) < 0)%Qc)
    by (eapply Qclt_le_trans; eauto).
  destruct (Qc_ltb r 0) eqn:Hr.
  - apply Qc_ltb_true in Hr. apply Qclt_le_weak, Qcopp_le_compat in Hr.
    change (- 0)%Qc with 0%Qc in Hr. exact (Qclt_not_le _ _ Hneg Hr).
  - rewrite <- Qc_ltb_true in Hneg. congruence.
Qed.

(** X3.  A tolerance that is not positive raises nothing: every pool is
    empty, the pixel's own position included. *)
Theorem pool_nonpositive_tolerance (data : list (list fval)) (k : nat)
    (z : fval) (q : Qc) :
  k < length data -> (q <= 0)%Qc -> pool data k z (Fin q) = Ok [].
Proof.
  intros Hk Hq. unfold pool.
  rewrite (getitem_nth data []) by assumption. cbn [bind]. f_equal.
  apply nonzero_from_all_false, Forall_forall. intros m Hm.
  apply in_map_iff in Hm. destruct Hm as [x [<- _]].
  now apply fabs_not_below.
Qed.

Lemma pool_nonpositive_tolerance_witness :
  pool (samples [[10; 11]]) 0 (code 10) (Fin 0) = Ok [].
Proof.
  apply pool_nonpositive_tolerance; [simpl; lia|].
  apply Qcle_refl.
Defined.

(** ** Residuals *)

(** The value of [calc_e] on well-shaped input. *)
Lemma calc_e_value (F P : nat) (np_empty : nat -> nat -> fval)
    (g E a b : list fval) (frames : list (list nat)) :
  frames_wf F P frames -> 0 < P -> length g = 256 -> length E = P ->
  length a = F -> length b = F ->
  calc_e F P np_empty g (samples frames) (Ar E) a b
  = Ok (map (fun k =>
               map (fun p => pooled_residual g E a b frames k
                               (pool_of frames k p)) (seq 0 P))
            (seq 0 F),
        map (fun k =>
               fmul (Fin c1265)
                 (np_median
                    (map (fun p =>
                            fsub (raw_residual g E a b frames k p)
                                 (pooled_residual g E a b frames k
                                    (pool_of frames k p)))
                         (seq 0 P))))
            (seq 0 F)).
Proof.
  intros W HP Hg HE Ha Hb. unfold calc_e.
  rewrite (mapM_ok _ (fun k =>
    (map (fun p => pooled_residual g E a b frames k (pool_of frames k p))
         (seq 0 P),
     fmul (Fin c1265)
       (np_median
          (map (fun p =>
                  fsub (raw_residual g E a b frames k p)
                       (pooled_residual g E a b frames k
                          (pool_of frames k p)))
               (seq 0 P)))))).
  - cbn [bind]. now rewrite !map_map.
  - intros k Hk. apply in_seq in Hk.
    eapply calc_e_frame_value; eauto. lia.
Qed.

(** X4.  Every entry of [pool_errors] and [median_errors] is written: the
    result of [calc_e] does not depend on what the freshly allocated
    arrays held. *)
Theorem calc_e_ignores_fresh_memory (F P : nat)
    (np_empty np_empty' : nat -> nat -> fval)
    (g E a b : list fval) (frames : list (list nat)) :
  frames_wf F P frames -> 0 < P -> length g = 256 -> length E = P ->
  length a = F -> length b = F ->
  calc_e F P np_empty g (samples frames) (Ar E) a b
  = calc_e F P np_empty' g (samples frames) (Ar E) a b.
Proof.
  intros W HP Hg HE Ha Hb.
  now rewrite !(@calc_e_value F P _ g E a b frames W HP Hg HE Ha Hb).
Qed.

Lemma calc_e_ignores_fresh_memory_witness :
  calc_e 2 3 (fun _ _ => NaN) identity_curve
    (samples [[1; 1; 4]; [2; 3; 3]]) (Ar [code 1; code 2; code 3])
    [Fin 1; Fin 1] [Fin 0; Fin 0]
  = calc_e 2 3 (fun _ _ => PInf) identity_curve
      (samples [[1; 1; 4]; [2; 3; 3]]) (Ar [code 1; code 2; code 3])
      [Fin 1; Fin 1] [Fin 0; Fin 0].
Proof.
  apply (@calc_e_ignores_fresh_memory 2 3); solve [shape].
Defined.

Lemma sorted_singleton (l : list nat) (p : nat) :
  StronglySorted lt l -> (forall q, In q l <-> q = p) -> l = [p].
Proof.
  intros Hs Hin. destruct l as [|x t].
  - exfalso. apply (proj2 (Hin p) eq_refl).
  - assert (Hx : x = p) by (apply Hin; now left). subst x.
    destruct t as [|y t]; [reflexivity|]. exfalso.
    assert (Hy : y = p) by (apply Hin; right; now left).
    apply StronglySorted_inv in Hs. destruct Hs as [_ Hall].
    apply Forall_inv in Hall. lia.
Qed.

Lemma fdiv_by_one (x : fval) : fdiv x (Fin (QcZ 1)) = x.
Proof.
  destruct x as [q| | |]; try reflexivity.
  change (fdiv (Fin q) (Fin (QcZ 1))) with (Fin (q / QcZ 1)).
  f_equal. change (QcZ 1) with 1%Qc. field. exact Q_apart_0_1.
Qed.

Lemma np_mean_singleton (x : fval) : np_mean [x] = x.
Proof.
  unfold np_mean, fsum. cbn [fold_left length].
  rewrite fadd_0_l. apply fdiv_by_one.
Qed.

Lemma pool_of_unique (F P : nat) (frames : list (list nat)) (k p : nat) :
  frames_wf F P frames -> k < F -> p < P ->
  (forall q, q < P -> code_at frames k q = code_at frames k p -> q = p) ->
  pool_of frames k p = [p].
Proof.
  intros W Hk Hp Hu. apply sorted_singleton.
  - apply nonzero_from_sorted.
  - intro q. rewrite (pool_of_same_code p q W Hk). split.
    + intros [Hq Hc]. now apply Hu.
    + intros ->. now split.
Qed.

(** X5.  A pixel whose code no other pixel of its frame shares is alone in
    its pool, and [calc_e] stores its own raw residual as its pooled
    residual. *)
Theorem calc_e_singleton_pool (F P : nat) (np_empty : nat -> nat -> fval)
    (g E a b : list fval) (frames : list (list nat)) (k p : nat) :
  frames_wf F P frames -> length g = 256 -> length E = P ->
  length a = F -> length b = F -> k < F -> p < P ->
  (forall q, q < P -> code_at frames k q = code_at frames k p -> q = p) ->
  exists pool_errors median_errors,
    calc_e F P np_empty g (samples frames) (Ar E) a b
    = Ok (pool_errors, median_errors) /\
    pool (samples frames) k (code (code_at frames k p)) (Fin 1) = Ok [p] /\
    nth_error (nth k pool_errors []) p
    = Some (raw_residual g E a b frames k p).
Proof.
  intros W Hg HE Ha Hb Hk Hp Hu.
  assert (HP : 0 < P) by lia.
  do 2 eexists. split; [|split].
  - eapply calc_e_value; eauto.
  - erewrite pool_value by eauto. f_equal. eapply pool_of_unique; eauto.
  - rewrite (nth_map_seq _ _ Hk), nth_error_map_seq by assumption.
    rewrite (pool_of_unique W Hk Hp Hu). unfold pooled_residual.
    cbn [map]. now rewrite np_mean_singleton.
Qed.

Lemma calc_e_singleton_pool_witness :
  exists pool_errors median_errors,
    calc_e 2 3 (fun _ _ => NaN) identity_curve
      (samples [[1; 1; 4]; [2; 3; 3]]) (Ar [code 1; code 2; code 3])
      [Fin 1; Fin 1] [Fin 0; Fin 0]
    = Ok (pool_errors, median_errors) /\
    pool (samples [[1; 1; 4]; [2; 3; 3]]) 0
      (code (code_at [[1; 1; 4]; [2; 3; 3]] 0 2)) (Fin 1) = Ok [2] /\
    nth_error (nth 0 pool_errors []) 2
    = Some (raw_residual identity_curve [code 1; code 2; code 3]
              [Fin 1; Fin 1] [Fin 0; Fin 0] [[1; 1; 4]; [2; 3; 3]] 0 2).
Proof.
  apply (@calc_e_singleton_pool 2 3); try solve [shape].
  intros q Hq Hc. destruct q as [|[|[|q]]]; try lia; discriminate Hc.
Defined.

Lemma np_sort_zeros (n : nat) :
  np_sort (repeat (Fin 0) n) = repeat (Fin 0) n.
Proof.
  induction n as [|n IH]; [reflexivity|].
  cbn [repeat np_sort fold_right]. fold (np_sort (repeat (Fin 0) n)).
  rewrite IH. destruct n; reflexivity.
Qed.

Lemma skipn_repeat {A} (x : A) (k n : nat) :
  skipn k (repeat x n) = repeat x (n - k).
Proof.
  revert k. induction n as [|n IH]; intros [|k]; simpl; auto.
Qed.

Lemma firstn_repeat {A} (x : A) (k n : nat) :
  firstn k (repeat x n) = repeat x (Nat.min k n).
Proof.
  revert k. induction n as [|n IH]; intros [|k]; simpl; auto.
  now rewrite IH.
Qed.

Lemma fsum_zeros (n : nat) : fsum (repeat (Fin 0) n) = Fin 0.
Proof.
  unfold fsum. induction n as [|n IH]; [reflexivity|].
  cbn [repeat fold_left]. now rewrite fadd_0_l.
Qed.

Lemma np_mean_zeros (n : nat) : 0 < n -> np_mean (repeat (Fin 0) n) = Fin 0.
Proof.
  intro H. unfold np_mean. rewrite fsum_zeros, repeat_length.
  rewrite fdiv_fin.
  - f_equal. unfold Qcdiv. apply Qcmult_0_l.
  - apply Qc_nonzero. unfold Qc_zerob. rewrite QcZ_this.
    cbn [Qnum inject_Z]. apply Z.eqb_neq. lia.
Qed.

Lemma np_median_zeros (n : nat) :
  0 < n -> np_median (repeat (Fin 0) n) = Fin 0.
Proof.
  intro H. unfold np_median.
  assert (E : existsb is_nan (repeat (Fin 0) n) = false).
  { clear H. induction n; [reflexivity|exact IHn]. }
  rewrite E, np_sort_zeros, repeat_length.
  assert (Hdiv : n / 2 < n) by (apply Nat.div_lt; lia).
  destruct (Nat.even n);
    rewrite skipn_repeat, firstn_repeat; apply np_mean_zeros; lia.
Qed.

Lemma raw_residual_finite (F P : nat) (g E a b : list Qc)
    (frames : list (list nat)) (k p : nat) :
  frames_wf F P frames -> length g = 256 -> length E = P ->
  length a = F -> length b = F -> k < F -> p < P ->
  exists r,
    raw_residual (map Fin g) (map Fin E) (map Fin a) (map Fin b) frames k p
    = Fin r.
Proof.
  intros W Hg HE Ha Hb Hk Hp. unfold raw_residual.
  rewrite !nth_map_Fin; try lia.
  - cbn [fsub fneg fadd fmul]. now eexists.
  - rewrite Hg. eapply code_at_bound; eauto.
Qed.

(** X6.  When the codes of frame [k] are pairwise distinct, every pool of
    the frame is a singleton, the error scale [median_errors[k]] is
    exactly 0 and the weight the loop derives from it, [1 / 0], is
    infinite. *)
Theorem calc_e_distinct_codes (F P : nat) (np_empty : nat -> nat -> fval)
    (g E a b : list Qc) (frames : list (list nat)) (k : nat) :
  frames_wf F P frames -> 0 < P -> length g = 256 -> length E = P ->
  length a = F -> length b = F -> k < F ->
  NoDup (nth k frames []) ->
  exists pool_errors median_errors,
    calc_e F P np_empty (map Fin g) (samples frames) (Ar (map Fin E))
      (map Fin a) (map Fin b)
    = Ok (pool_errors, median_errors) /\
    nth_error median_errors k = Some (Fin 0) /\
    nth_error (map (fdiv (Fin 1)) median_errors) k = Some PInf.
Proof.
  intros W HP Hg HE Ha Hb Hk Hnd.
  destruct (frames_wf_nth W Hk) as [HL _].
  assert (Hu : forall p q, p < P -> q < P ->
            code_at frames k q = code_at frames k p -> q = p).
  { intros p q Hp Hq Hc. unfold code_at in Hc.
    apply (proj1 (NoDup_nth (nth k frames []) 0) Hnd q p); lia || exact Hc. }
  assert (Hme : fmul (Fin c1265)
            (np_median
               (map (fun p =>
                  fsub (raw_residual (map Fin g) (map Fin E) (map Fin a)
                          (map Fin b) frames k p)
                       (pooled_residual (map Fin g) (map Fin E) (map Fin a)
                          (map Fin b) frames k (pool_of frames k p)))
                  (seq 0 P))) = Fin 0).
  { rewrite (map_ext_in _ (fun _ => Fin 0)).
    - rewrite map_const, length_seq, np_median_zeros by assumption.
      cbn [fmul]. now rewrite Qcmult_0_r.
    - intros p Hp. apply in_seq in Hp.
      rewrite (@pool_of_unique F P frames k p W Hk)
        by (try lia; intros q Hq Hc; apply Hu; auto; lia).
      unfold pooled_residual. cbn [map]. rewrite np_mean_singleton.
      destruct (@raw_residual_finite F P g E a b frames k p) as [r ->];
        try assumption; try lia.
      cbn [fsub fneg fadd]. now rewrite Qcplus_opp_r. }
  do 2 eexists. split; [|split].
  - eapply calc_e_value; eauto; now rewrite length_map.
  - rewrite nth_error_map_seq by assumption. now rewrite Hme.
  - rewrite nth_error_map, nth_error_map_seq by assumption.
    rewrite Hme. reflexivity.
Qed.

Lemma calc_e_distinct_codes_witness :
  exists pool_errors median_errors,
    calc_e 1 3 (fun _ _ => NaN) (map Fin identity_curve_Q)
      (samples [[1; 2; 4]])
      (Ar (map Fin [Q2Qc (1 # 1); Q2Qc (2 # 1); Q2Qc (3 # 1)]))
      (map Fin [1%Qc]) (map Fin [0%Qc])
    = Ok (pool_errors, median_errors) /\
    nth_error median_errors 0 = Some (Fin 0) /\
    nth_error (map (fdiv (Fin 1)) median_errors) 0 = Some PInf.
Proof.
  apply (@calc_e_distinct_codes 1 3); try solve [shape].
  cbn [nth]. repeat constructor; cbn [In]; lia.
Defined.

(** ** Errors of the irradiance estimate *)

Lemma mapM_raises {A B} (f : A -> result B) (e : exn) (l : list A) :
  (forall x, In x l -> (exists y, f x = Ok y) \/ f x = Raise e) ->
  (exists x, In x l /\ f x = Raise e) ->
  mapM f l = Raise e.
Proof.
  induction l as [|x l IH]; intros Hall [x0 [Hin Hx0]]; [destruct Hin|].
  cbn [mapM].
  destruct (Hall x (or_introl eq_refl)) as [[y Hy]|Hy]; rewrite Hy;
    [|reflexivity].
  cbn [bind]. rewrite IH; [reflexivity| |].
  - intros z Hz. apply Hall. now right.
  - destruct Hin as [->|Hin]; [congruence|]. now exists x0.
Qed.

Lemma g_lookup_code_out (g : list fval) (c : nat) :
  length g <= c -> g_lookup g (code c) = Raise IndexError.
Proof.
  intro H. unfold g_lookup. rewrite py_int_code. cbn [bind].
  unfold getitem_int. destruct (Z.leb_spec 0 (Z.of_nat c)); [|lia].
  rewrite Nat2Z.id. now apply getitem_out.
Qed.

Lemma g_lookup_code_cases (g : list fval) (c : nat) :
  (exists v, g_lookup g (code c) = Ok v) \/
  g_lookup g (code c) = Raise IndexError.
Proof.
  destruct (Nat.lt_ge_cases c (length g)) as [H|H].
  - left. eexists. now apply g_lookup_code.
  - right. now apply g_lookup_code_out.
Qed.

Lemma g_func_codes_cases (g : list fval) (cs : list nat) :
  cs <> [] ->
  (exists gs, g_func g (map code cs) = Ok gs) \/
  g_func g (map code cs) = Raise IndexError.
Proof.
  intro Hne. unfold g_func, vectorize.
  destruct cs as [|c0 cs]; [congruence|].
  change (match map code (c0 :: cs) with
          | [] => Raise ValueError
          | _ :: _ => mapM (g_lookup g) (map code (c0 :: cs))
          end) with (mapM (g_lookup g) (map code (c0 :: cs))).
  generalize (c0 :: cs). clear. intro l.
  induction l as [|c l IH]; [left; now eexists|].
  cbn [map mapM].
  destruct (g_lookup_code_cases g c) as [[v ->]| ->]; [|now right].
  cbn [bind]. destruct IH as [[gs ->]| ->]; [|now right].
  left. now eexists.
Qed.

Lemma g_func_codes_out (g : list fval) (cs : list nat) (c : nat) :
  In c cs -> length g <= c -> g_func g (map code cs) = Raise IndexError.
Proof.
  intros Hin Hc. unfold g_func, vectorize.
  destruct cs as [|c0 cs]; [destruct Hin|].
  change (match map code (c0 :: cs) with
          | [] => Raise ValueError
          | _ :: _ => mapM (g_lookup g) (map code (c0 :: cs))
          end) with (mapM (g_lookup g) (map code (c0 :: cs))).
  rewrite mapM_map. apply mapM_raises.
  - intros x _. apply g_lookup_code_cases.
  - exists c. split; [exact Hin|now apply g_lookup_code_out].
Qed.

(** [calc_E_single] on a frame in range either returns or raises
    IndexError. *)
Lemma calc_E_single_cases (g w b a : list fval) (frames : list (list nat))
    (i : nat) :
  i < length frames -> nth i frames [] <> [] ->
  (exists r, calc_E_single g w (samples frames) b a i = Ok r) \/
  calc_E_single g w (samples frames) b a i = Raise IndexError.
Proof.
  intros Hi Hne. unfold calc_E_single, getitem.
  destruct (nth_error w i); [|now right]. cbn [bind].
  fold (getitem (samples frames) i).
  rewrite (getitem_nth (samples frames) [])
    by (unfold samples; now rewrite length_map).
  cbn [bind]. rewrite samples_nth.
  destruct (g_func_codes_cases g Hne) as [[gs ->]| ->]; [|now right].
  cbn [bind]. destruct (nth_error b i); [|now right]. cbn [bind].
  destruct (nth_error a i); [|now right]. cbn [bind].
  left. now eexists.
Qed.

(** X7.  A sample whose code is not an index of the curve makes [calc_E]
    raise IndexError; no irradiance map is returned. *)
Theorem calc_E_code_out_of_curve (F P : nat) (g w b a : list fval)
    (frames : list (list nat)) (i p : nat) :
  length frames = F -> Forall (fun fr => length fr = P) frames ->
  i < F -> p < P -> length g <= code_at frames i p ->
  calc_E F g w (samples frames) b a = Raise IndexError.
Proof.
  intros HF Hall Hi Hp Hc. unfold calc_E.
  assert (Hrow : forall j, j < F -> length (nth j frames []) = P).
  { intros j Hj. rewrite Forall_forall in Hall. apply Hall, nth_In. lia. }
  rewrite (@mapM_raises _ _ _ IndexError); [reflexivity| |].
  - intros j Hj. apply in_seq in Hj. apply calc_E_single_cases; [lia|].
    intro E. specialize (Hrow j ltac:(lia)). rewrite E in Hrow.
    simpl in Hrow. lia.
  - exists i. split; [apply in_seq; lia|].
    unfold calc_E_single, getitem.
    destruct (nth_error w i); [|reflexivity]. cbn [bind].
    fold (getitem (samples frames) i).
    rewrite (getitem_nth (samples frames) [])
      by (unfold samples; rewrite length_map; lia).
    cbn [bind]. rewrite samples_nth.
    rewrite (@g_func_codes_out g _ (code_at frames i p)); [reflexivity| |exact Hc].
    unfold code_at. apply nth_In. rewrite Hrow; assumption.
Qed.

Lemma calc_E_code_out_of_curve_witness :
  calc_E 1 identity_curve [Fin 1] (samples [[10; 300]]) [Fin 0] [Fin 1]
  = Raise IndexError.
Proof.
  apply (@calc_E_code_out_of_curve 1 2 _ _ _ _ _ 0 1); solve [shape].
Defined.

(** X8.  A weight, bias or gain vector shorter than the frame count makes
    [calc_E] raise IndexError, on frames that are otherwise valid. *)
Theorem calc_E_short_vector (F P : nat) (g w b a : list fval)
    (frames : list (list nat)) :
  frames_wf F P frames -> 0 < P ->
  length w < F \/ length b < F \/ length a < F ->
  calc_E F g w (samples frames) b a = Raise IndexError.
Proof.
  intros W HP Hshort. unfold calc_E.
  assert (Hne : forall j, j < F -> nth j frames [] <> []).
  { intros j Hj E. destruct (frames_wf_nth W Hj) as [HL _].
    rewrite E in HL. simpl in HL. lia. }
  assert (HF : length frames = F) by (destruct W; assumption).
  rewrite (@mapM_raises _ _ _ IndexError); [reflexivity| |].
  - intros j Hj. apply in_seq in Hj.
    apply calc_E_single_cases; [lia|apply Hne; lia].
  - set (m := Nat.min (length w) (Nat.min (length b) (length a))).
    exists m. split; [apply in_seq; lia|].
    assert (Hm : m < F) by lia.
    destruct (calc_E_single_cases g w b a frames (i := m)) as [[r Hr]|Hr];
      [lia|apply Hne; lia| |exact Hr].
    exfalso. unfold calc_E_single in Hr.
    destruct (getitem w m) eqn:Ew; [|discriminate]. cbn [bind] in Hr.
    destruct (getitem (samples frames) m); [|discriminate]. cbn [bind] in Hr.
    destruct (g_func g v0); [|discriminate]. cbn [bind] in Hr.
    destruct (getitem b m) eqn:Eb; [|discriminate]. cbn [bind] in Hr.
    destruct (getitem a m) eqn:Ea; [|discriminate].
    unfold getitem in Ew, Eb, Ea.
    destruct (nth_error w m) eqn:Nw; [|discriminate].
    destruct (nth_error b m) eqn:Nb; [|discriminate].
    destruct (nth_error a m) eqn:Na; [|discriminate].
    assert (m < length w) by (apply nth_error_Some; congruence).
    assert (m < length b) by (apply nth_error_Some; congruence).
    assert (m < length a) by (apply nth_error_Some; congruence).
    lia.
Qed.

Lemma calc_E_short_vector_witness :
  calc_E 2 identity_curve [Fin 1] (samples [[10; 20]; [20; 40]])
    [Fin 0; Fin 0] [Fin 1; Fin 1]
  = Raise IndexError.
Proof.
  apply calc_E_short_vector with (P := 2); solve [shape | left; simpl; lia].
Defined.

(** X9.  Frames without pixels are refused: [np.vectorize] raises
    ValueError on a row of size 0, in [calc_E], in [calc_e] and in
    [calibrate]. *)
Theorem empty_frames_raise (F P : nat) (np_empty : nat -> nat -> fval)
    (g w b a : list fval) (E : nd) (rest : list (list fval)) (a' b' : nd) :
  0 < F -> w <> [] -> a <> [] -> b <> [] ->
  calc_E F g w ([] :: rest) b a = Raise ValueError /\
  calc_e F P np_empty g ([] :: rest) E a b = Raise ValueError /\
  calibrate [] a' b' g = Raise ValueError.
Proof.
  intros HF Hw Ha Hb. destruct F as [|F]; [lia|].
  destruct w as [|w0 w]; [congruence|].
  destruct a as [|a0 a]; [congruence|].
  destruct b as [|b0 b]; [congruence|].
  repeat split.
Qed.

Lemma empty_frames_raise_witness :
  calc_E 1 identity_curve [Fin 1] [[]] [Fin 0] [Fin 1] = Raise ValueError /\
  calc_e 1 0 (fun _ _ => NaN) identity_curve [[]] (Ar []) [Fin 1] [Fin 0]
  = Raise ValueError /\
  calibrate [] (Sc (Fin 1)) (Sc (Fin 0)) identity_curve = Raise ValueError.
Proof.
  apply empty_frames_raise; solve [lia | discriminate].
Defined.

(** ** [calibrate] *)

Lemma nth_map_lt {A B} (f : A -> B) (l : list A) (p : nat) (d : B) (d' : A) :
  p < length l -> nth p (map f l) d = f (nth p l d').
Proof.
  intro H. rewrite (nth_indep _ d (f d')) by now rewrite length_map.
  apply map_nth.
Qed.








(** ** The forward model and the objective *)

Lemma nth_zip_with {A B C} (f : A -> B -> C) (l : list A) (m : list B)
    (p : nat) (d : C) (da : A) (db : B) :
  p < length l -> p < length m ->
  nth p (zip_with f l m) d = f (nth p l da) (nth p m db).
Proof.
  revert m p. induction l as [|x l IH]; intros [|y m] [|p] Hl Hm;
    simpl in *; try lia; [reflexivity|]. apply IH; lia.
Qed.

Lemma list_eq_map_seq {A} (l : list A) (h : nat -> A) (d : A) (n : nat) :
  length l = n -> (forall p, p < n -> nth p l d = h p) ->
  l = map h (seq 0 n).
Proof.
  intros Hl Hp. rewrite (list_as_map_seq l d), Hl.
  apply map_ext_in. intros p Hin. apply in_seq in Hin. apply Hp. lia.
Qed.

Lemma nd_add_at (P : nat) (x y : nd) :
  nd_fits P x -> nd_fits P y ->
  exists t, nd_map2 fadd x y = Ok t /\ nd_fits P t /\
            forall p, p < P -> nd_at t p = fadd (nd_at x p) (nd_at y p).
Proof.
  destruct x as [u|l], y as [v|m]; cbn [nd_fits nd_map2 nd_at]; intros Hx Hy.
  - eexists. split; [reflexivity|]. split; [exact I|]. reflexivity.
  - eexists. split; [reflexivity|]. cbn [nd_fits nd_at].
    rewrite length_map. split; [assumption|].
    intros p Hp. apply nth_map_lt. lia.
  - eexists. split; [reflexivity|]. cbn [nd_fits nd_at].
    rewrite length_map. split; [assumption|].
    intros p Hp. now rewrite (nth_map_lt (fun u => fadd u v) l NaN NaN) by lia.
  - rewrite arr_map2_same by lia. cbn [bind].
    eexists. split; [reflexivity|]. cbn [nd_fits nd_at].
    rewrite length_zip_with by lia. split; [assumption|].
    intros p Hp. apply nth_zip_with; lia.
Qed.

Lemma py_sum_from_at (P : nat) (rs : list nd) (acc : nd) :
  nd_fits P acc -> Forall (nd_fits P) rs ->
  exists t, py_sum_from acc rs = Ok t /\ nd_fits P t /\
            forall p, p < P ->
              nd_at t p
              = fold_left fadd (map (fun r => nd_at r p) rs) (nd_at acc p).
Proof.
  revert acc. induction rs as [|r rs IH]; intros acc Ha Hr; cbn [py_sum_from].
  - exists acc. repeat split; auto.
  - apply Forall_cons_iff in Hr. destruct Hr as [H1 H2].
    destruct (@nd_add_at P acc r Ha H1) as [t [-> [Ht Hat]]]. cbn [bind].
    destruct (IH t Ht H2) as [t' [-> [Ht' Hat']]].
    exists t'. repeat split; auto.
    intros p Hp. cbn [map fold_left]. rewrite Hat', Hat by assumption.
    reflexivity.
Qed.

Lemma nd_iadd_at (P : nat) (total : nd) (x : list fval) :
  nd_fits P total -> length x = P ->
  exists r, nd_iadd total x = Ok r /\ length r = P /\
            forall p, p < P ->
              nth p r NaN = fadd (nd_at total p) (nth p x NaN).
Proof.
  destruct total as [u|l]; cbn [nd_fits nd_iadd nd_at]; intros Ht Hx.
  - eexists. split; [reflexivity|]. rewrite length_map.
    split; [assumption|]. intros p Hp. apply nth_map_lt. lia.
  - rewrite Ht, Hx, Nat.eqb_refl. eexists. split; [reflexivity|].
    rewrite length_zip_with by lia. split; [assumption|].
    intros p Hp. apply nth_zip_with; lia.
Qed.

Lemma calc_F_single_value (F P : nat) (a Es da db dg w : list fval)
    (frames : list (list nat)) (k i : nat) :
  frames_wf F P frames -> length Es = P -> length a = F -> length w = F ->
  length da = F -> length db = F -> length dg = 256 -> k < F -> i < F ->
  calc_F_single P a (Ar Es) da db dg w (samples frames) k i
  = Ok (if i =? k then Sc (Fin 0)
        else Ar (map (forward_term a Es da db dg w frames k i) (seq 0 P))).
Proof.
  intros W HE Ha Hw Hda Hdb Hdg Hk Hi. unfold calc_F_single.
  destruct (Nat.eqb_spec i k) as [->|Hne]; [reflexivity|].
  rewrite (getitem_nth (samples frames) []) by now rewrite (samples_length W).
  cbn [bind]. rewrite samples_nth, (dg_lookup_row dg W Hi Hdg).
  cbn [bind]. rewrite assign_all_same by now rewrite length_map, length_seq.
  cbn [bind]. rewrite (getitem_nth w NaN) by lia. cbn [bind].
  rewrite (getitem_nth a NaN) by lia. cbn [bind].
  rewrite (getitem_nth da NaN) by lia. cbn [bind].
  rewrite (getitem_nth db NaN) by lia. cbn [bind nd_all].
  rewrite (list_as_map_seq Es NaN) at 1. rewrite HE, !map_map.
  rewrite arr_map2_seq. cbn [bind]. rewrite map_map.
  do 2 f_equal. apply map_ext_in. intros p Hp. unfold forward_term.
  destruct (Nat.eqb_spec i k); [contradiction|reflexivity].
Qed.

Lemma calc_F_value (F P : nat) (a b g Es da db dg w : list fval)
    (frames : list (list nat)) (k : nat) :
  frames_wf F P frames -> 0 < P -> length g = 256 -> length Es = P ->
  length a = F -> length b = F -> length w = F ->
  length da = F -> length db = F -> length dg = 256 -> k < F ->
  calc_F F P a b g (Ar Es) da db dg w (samples frames) k
  = Ok (map (forward_model a b g Es da db dg w frames k) (seq 0 P)).
Proof.
  intros W HP Hg HE Ha Hb Hw Hda Hdb Hdg Hk. unfold calc_F.
  rewrite (mapM_ok _ (fun i =>
    if i =? k then Sc (Fin 0)
    else Ar (map (forward_term a Es da db dg w frames k i) (seq 0 P)))).
  2:{ intros i Hi. apply in_seq in Hi.
      eapply calc_F_single_value; eauto. lia. }
  cbn [bind]. unfold py_sum.
  destruct (@py_sum_from_at P
    (map (fun i => if i =? k then Sc (Fin 0)
                   else Ar (map (forward_term a Es da db dg w frames k i)
                              (seq 0 P))) (seq 0 F))
    (Sc (Fin 0)) I) as [total [-> [Ht Hat]]].
  { apply Forall_forall. intros r Hr. apply in_map_iff in Hr.
    destruct Hr as [i [<- _]]. destruct (i =? k); cbn [nd_fits]; [exact I|].
    now rewrite length_map, length_seq. }
  cbn [bind]. rewrite (getitem_nth w NaN) by lia. cbn [bind].
  rewrite (getitem_nth (samples frames) []) by now rewrite (samples_length W).
  cbn [bind]. rewrite samples_nth, (g_func_row g W Hk HP Hg). cbn [bind].
  rewrite (getitem_nth b NaN) by lia. cbn [bind nd_all].
  rewrite (getitem_nth a NaN) by lia. cbn [bind].
  rewrite (list_as_map_seq Es NaN) at 1. rewrite HE, !map_map.
  rewrite arr_map2_seq. cbn [bind]. rewrite map_map.
  match goal with
  | |- context [nd_iadd total ?X] =>
      change X with (map (self_term a b g Es w frames k) (seq 0 P))
  end.
  destruct (@nd_iadd_at P total (map (self_term a b g Es w frames k) (seq 0 P))
              Ht) as [r [-> [Hr Hnth]]];
    [now rewrite length_map, length_seq|].
  f_equal. apply (list_eq_map_seq r _ NaN Hr).
  intros p Hp. rewrite Hnth, Hat by assumption.
  rewrite nth_map_seq by assumption. unfold forward_model, fsum.
  destruct W as [HL _]. rewrite HL, map_map. cbn [nd_at]. do 2 f_equal.
  apply map_ext_in. intros i Hi. unfold forward_term.
  destruct (i =? k); cbn [nd_at]; [reflexivity|].
  now rewrite nth_map_seq by assumption.
Qed.

(** X13.  For proposed corrections [da], [db], [dg] of the right lengths,
    [calc_F] returns, at every pixel [p] of frame [k], the sum over the
    other frames [i] of
    [w[i] * a[k] / da[i] * (dg[frames[i][p]] - db[i] - E[p] * da[i])] plus
    [(w[k] - 1) * (g[frames[k][p]] - b[k] - E[p] * a[k])]. *)
Theorem calc_F_forward_model (F P : nat) (a b g Es da db dg w : list fval)
    (frames : list (list nat)) (k : nat) :
  frames_wf F P frames -> 0 < P -> length g = 256 -> length Es = P ->
  length a = F -> length b = F -> length w = F ->
  length da = F -> length db = F -> length dg = 256 -> k < F ->
  exists Fk,
    calc_F F P a b g (Ar Es) da db dg w (samples frames) k = Ok Fk /\
    length Fk = P /\
    forall p, p < P ->
      nth_error Fk p
      = Some (forward_model a b g Es da db dg w frames k p).
Proof.
  intros. eexists. split; [|split].
  - eapply calc_F_value; eauto.
  - now rewrite length_map, length_seq.
  - intros p Hp. now rewrite nth_error_map_seq.
Qed.

Lemma calc_F_forward_model_witness :
  exists Fk,
    calc_F 2 2 [Fin 1; Fin 1] [Fin 0; Fin 0] identity_curve
      (Ar [code 10; code 20]) [Fin 1; Fin 1] [Fin 0; Fin 0] delta_g0
      [Fin 1; Fin 1] (samples [[10; 20]; [20; 40]]) 0 = Ok Fk /\
    length Fk = 2 /\
    forall p, p < 2 ->
      nth_error Fk p
      = Some (forward_model [Fin 1; Fin 1] [Fin 0; Fin 0] identity_curve
                [code 10; code 20] [Fin 1; Fin 1] [Fin 0; Fin 0] delta_g0
                [Fin 1; Fin 1] [[10; 20]; [20; 40]] 0 p).
Proof.
  apply (@calc_F_forward_model 2 2); solve [shape].
Defined.

(** X14.  On globals of matching shapes, [calc_total_F_error] unpacks
    [args] into [da], [db], [dg] (in that order) and returns, summed first
    over the frames and then over the pixels,
    [(e[p, k] - F(p, k)) ** 2 / sigma[k]]. *)
Theorem calc_total_F_error_value (F P : nat) (s : state) (Es : list fval)
    (frames : list (list nat)) (args : list fval) :
  frames_wf F P frames -> 0 < F -> 0 < P ->
  st_green_channel s = samples frames -> st_E s = Ar Es -> length Es = P ->
  length (st_g s) = 256 -> length (st_a s) = F -> length (st_b s) = F ->
  length (st_w s) = F -> length (st_sigma s) = F ->
  length (st_e s) = F -> Forall (fun col => length col = P) (st_e s) ->
  length args = 2 * F + 256 ->
  calc_total_F_error F P s args
  = Ok (objective_formula s Es (firstn F args) (firstn F (skipn F args))
          (skipn (2 * F) args) frames P).
Proof.
  intros W HF HP Hgc HE HEs Hg Ha Hb Hw Hs He Hcols Hargs.
  unfold calc_total_F_error. rewrite Hgc, HE.
  set (da := firstn F args). set (db := firstn F (skipn F args)).
  set (dg := skipn (2 * F) args).
  assert (Hda : length da = F) by (unfold da; rewrite length_firstn; lia).
  assert (Hdb : length db = F)
    by (unfold db; rewrite length_firstn, length_skipn; lia).
  assert (Hdg : length dg = 256) by (unfold dg; rewrite length_skipn; lia).
  set (t := fun k p =>
         fdiv (fmul (fsub (nth p (nth k (st_e s) []) NaN)
                       (forward_model (st_a s) (st_b s) (st_g s) Es da db dg
                          (st_w s) frames k p))
                    (fsub (nth p (nth k (st_e s) []) NaN)
                       (forward_model (st_a s) (st_b s) (st_g s) Es da db dg
                          (st_w s) frames k p)))
              (nth k (st_sigma s) NaN)).
  rewrite (mapM_ok _ (fun k => Ar (map (t k) (seq 0 P)))).
  - cbn [bind]. rewrite py_sum_arrays by (destruct F; [lia|discriminate]).
    cbn [bind nd_sum]. unfold objective_formula.
    destruct W as [HL _]. now rewrite HL.
  - intros k Hk. apply in_seq in Hk. unfold calc_total_F_error_single.
    rewrite (@calc_F_value F P) by (assumption || lia). cbn [bind].
    rewrite (getitem_nth (st_e s) []) by lia. cbn [bind].
    assert (Hcol : length (nth k (st_e s) []) = P).
    { rewrite Forall_forall in Hcols. apply Hcols, nth_In. lia. }
    rewrite (list_as_map_seq (nth k (st_e s) []) NaN) at 1.
    rewrite Hcol, arr_map2_seq. cbn [bind].
    rewrite (getitem_nth (st_sigma s) NaN) by lia. cbn [bind].
    now rewrite map_map.
Qed.

Lemma calc_total_F_error_value_witness :
  calc_total_F_error 1 2
    (mkState [Fin 1] [Fin 0] identity_curve (Ar [code 10; code 20]) [Fin 1]
       [Fin 1] [[Fin 0; Fin 0]] [Fin 1] (samples [[10; 20]]) [] [] [])
    (delta_a0 1 ++ delta_b0 1 ++ delta_g0)
  = Ok (objective_formula
          (mkState [Fin 1] [Fin 0] identity_curve (Ar [code 10; code 20])
             [Fin 1] [Fin 1] [[Fin 0; Fin 0]] [Fin 1] (samples [[10; 20]])
             [] [] [])
          [code 10; code 20]
          (firstn 1 (delta_a0 1 ++ delta_b0 1 ++ delta_g0))
          (firstn 1 (skipn 1 (delta_a0 1 ++ delta_b0 1 ++ delta_g0)))
          (skipn (2 * 1) (delta_a0 1 ++ delta_b0 1 ++ delta_g0))
          [[10; 20]] 2).
Proof.
  apply (@calc_total_F_error_value 1 2); solve [shape].
Defined.

Lemma start_point (F : nat) :
  repeat (Fin 1) F ++ repeat (Fin 0) (F + 256)
  = delta_a0 F ++ delta_b0 F ++ delta_g0.
Proof. unfold delta_a0, delta_b0, delta_g0. now rewrite repeat_app. Qed.

(** X15.  [calc_gradients] starts the minimizer at [da = 1], [db = 0],
    [dg = 0] and cuts its result into three consecutive pieces: a result
    of length [2 F + 256] is returned as [da], [db], [dg] of lengths [F],
    [F], 256 whose concatenation is that result, and an exception of the
    minimizer is passed on. *)
Theorem calc_gradients_unpacks (F P : nat)
    (minimize : (list fval -> result fval) -> list fval -> result (list fval))
    (s : state) :
  (forall x,
     minimize (calc_total_F_error F P s)
       (delta_a0 F ++ delta_b0 F ++ delta_g0) = Ok x ->
     length x = 2 * F + 256 ->
     exists da db dg,
       calc_gradients F P minimize s = Ok (da, db, dg) /\
       da ++ db ++ dg = x /\
       length da = F /\ length db = F /\ length dg = 256) /\
  (forall e,
     minimize (calc_total_F_error F P s)
       (delta_a0 F ++ delta_b0 F ++ delta_g0) = Raise e ->
     calc_gradients F P minimize s = Raise e).
Proof.
  unfold calc_gradients. rewrite start_point. split.
  - intros x Hx Lx. rewrite Hx. cbn [bind].
    do 3 eexists. split; [reflexivity|]. split.
    + replace (skipn (2 * F) x) with (skipn F (skipn F x))
        by (rewrite skipn_skipn; f_equal; lia).
      now rewrite !firstn_skipn.
    + rewrite !length_firstn, !length_skipn. lia.
  - intros e He. now rewrite He.
Qed.

Lemma calc_gradients_unpacks_witness :
  exists da db dg,
    calc_gradients 1 2 (fun _ x0 => Ok x0) (initial_state 1 2)
    = Ok (da, db, dg) /\
    da ++ db ++ dg = delta_a0 1 ++ delta_b0 1 ++ delta_g0 /\
    length da = 1 /\ length db = 1 /\ length dg = 256.
Proof.
  apply (proj1 (calc_gradients_unpacks 1 2 (fun _ x0 => Ok x0)
                  (initial_state 1 2))); reflexivity.
Defined.

Lemma pool_positions_witness :
  exists l,
    pool (samples [[10; 11; 10]]) 0 (code 10) (Fin 1) = Ok l /\
    StronglySorted lt l /\
    Forall (fun q => q < length (nth 0 (samples [[10; 11; 10]]) [])) l.
Proof.
  apply (proj1 (pool_positions (samples [[10; 11; 10]]) 0 (code 10) (Fin 1))).
  simpl. lia.
Defined.

Lemma pool_is_same_code_witness :
  exists l,
    pool (samples [[10; 11; 10]]) 0 (code (code_at [[10; 11; 10]] 0 0)) (Fin 1)
    = Ok l /\
    forall q, In q l <->
              q < 3 /\ code_at [[10; 11; 10]] 0 q = code_at [[10; 11; 10]] 0 0.
Proof.
  apply (@pool_is_same_code 1 3); solve [shape].
Defined.

(** ** The loop *)

Lemma fadd_zero_r (x : fval) : fadd x (Fin 0) = x.
Proof. destruct x; simpl; try reflexivity. now rewrite Qcplus_0_r. Qed.

Lemma zip_with_repeat_r {A B C} (f : A -> B -> C) (l : list A) (y : B) :
  zip_with f l (repeat y (length l)) = map (fun x => f x y) l.
Proof. induction l as [|x l IH]; simpl; [reflexivity|now rewrite IH]. Qed.

(** One pass of the loop body on globals and data of matching shapes:
    every statement up to the plotting runs, and the corrections are the
    three pieces of the minimizer's result [x]. *)
Lemma iteration_run (F P : nat) (data : list (list pixel))
    (np_empty : nat -> nat -> fval)
    (minimize : (list fval -> result fval) -> list fval -> result (list fval))
    (plot : state -> result unit) (frames : list (list nat)) (s : state) :
  minimizer_contract minimize ->
  frames_wf F P frames -> 0 < F -> 0 < P ->
  map (map green) data = samples frames ->
  length (st_a s) = F -> length (st_b s) = F -> length (st_w s) = F ->
  length (st_g s) = 256 ->
  exists E pool_errors median_errors x s',
    calc_E F (st_g s) (st_w s) (samples frames) (st_b s) (st_a s) = Ok E /\
    calc_e F P np_empty (st_g s) (samples frames) E (st_a s) (st_b s)
    = Ok (pool_errors, median_errors) /\
    minimize
      (calc_total_F_error F P
         (after_residuals (samples frames) E pool_errors median_errors s))
      (delta_a0 F ++ delta_b0 F ++ delta_g0) = Ok x /\
    length x = 2 * F + 256 /\
    iteration F P data np_empty minimize plot s = (s', plot s') /\
    st_w s' = map (fdiv (Fin 1)) median_errors /\
    st_a s' = zip_with fsub (st_a s) (map (fmul LEARN_RATE) (firstn F x)) /\
    st_b s' = zip_with fsub (st_b s)
                (map (fmul LEARN_RATE) (firstn F (skipn F x))) /\
    st_g s' = zip_with fsub (st_g s)
                (map (fmul LEARN_RATE) (skipn (2 * F) x)) /\
    length (st_a s') = F /\ length (st_b s') = F /\ length (st_w s') = F /\
    length (st_g s') = 256.
Proof.
  intros Hmin W HF HP Hdata Ha Hb Hw Hg.
  pose proof (@calc_E_value F P (st_g s) (st_w s) (st_b s) (st_a s) frames
                W HF HP Hg Hw Hb Ha) as HE.
  set (Es := map (irradiance_terms (st_w s) (st_b s) (st_a s) (st_g s) frames)
               (seq 0 P)) in HE.
  assert (HEs : length Es = P) by (unfold Es; now rewrite length_map, length_seq).
  destruct (@calc_e_shape F P np_empty (st_g s) Es (st_a s) (st_b s) frames
              W HP Hg HEs Ha Hb) as [pe [me [He [Lpe [Cpe Lme]]]]].
  set (mid := after_residuals (samples frames) (Ar Es) pe me s).
  assert (Largs : length (delta_a0 F ++ delta_b0 F ++ delta_g0) = 2 * F + 256).
  { unfold delta_a0, delta_b0, delta_g0.
    rewrite !length_app, !repeat_length. lia. }
  destruct (Hmin (calc_total_F_error F P mid)
              (delta_a0 F ++ delta_b0 F ++ delta_g0)) as [x [Hx Lx]].
  { intros y Hy. apply (@calc_total_F_error_total F P mid Es frames y);
      try assumption; try reflexivity; cbn;
      try rewrite length_map; try assumption; lia. }
  rewrite Largs in Lx.
  assert (Hgrad : calc_gradients F P minimize mid
                  = Ok (firstn F x, firstn F (skipn F x), skipn (2 * F) x)).
  { unfold calc_gradients. rewrite start_point. now rewrite Hx. }
  exists (Ar Es), pe, me, x. eexists.
  split; [exact HE|]. split; [exact He|]. split; [exact Hx|].
  split; [exact Lx|]. split.
  - unfold iteration, and_then, eval, assign. st_simpl.
    rewrite Hdata, HE. st_simpl. rewrite He. st_simpl.
    match goal with
    | |- context [calc_gradients F P minimize ?d] => change d with mid
    end.
    rewrite Hgrad. st_simpl. subst mid. st_simpl.
    rewrite damped_step_same by (rewrite length_firstn; lia). st_simpl.
    rewrite damped_step_same
      by (rewrite length_firstn, length_skipn; lia). st_simpl.
    rewrite damped_step_same by (rewrite length_skipn; lia). st_simpl.
    reflexivity.
  - st_simpl. repeat split; try reflexivity;
      rewrite ?length_zip_with;
      rewrite ?length_map, ?length_firstn, ?length_skipn; lia.
Qed.

Lemma iteration_unmoved (F P : nat) (data : list (list pixel))
    (np_empty : nat -> nat -> fval)
    (minimize : (list fval -> result fval) -> list fval -> result (list fval))
    (plot : state -> result unit) (frames : list (list nat)) (s : state) :
  (forall f x0, minimize f x0 = Ok x0) ->
  frames_wf F P frames -> 0 < F -> 0 < P ->
  map (map green) data = samples frames ->
  length (st_a s) = F -> length (st_b s) = F -> length (st_w s) = F ->
  length (st_g s) = 256 ->
  exists s',
    iteration F P data np_empty minimize plot s = (s', plot s') /\
    st_a s' = map (fun v => fsub v LEARN_RATE) (st_a s) /\
    st_b s' = st_b s /\ st_g s' = st_g s /\
    length (st_a s') = F /\ length (st_b s') = F /\ length (st_w s') = F /\
    length (st_g s') = 256.
Proof.
  intros Hmin W HF HP Hdata Ha Hb Hw Hg.
  destruct (@iteration_run F P data np_empty minimize plot frames s)
    as [E [pe [me [x [s' [_ [_ [Hx [Lx [Hit [_ [Sa [Sb [Sg L]]]]]]]]]]]]]];
    try assumption.
  { intros f x0 _. exists x0. split; [apply Hmin|reflexivity]. }
  rewrite Hmin in Hx. injection Hx as Hx. subst x.
  assert (Hz : forall l : list fval,
            map (fun v => fsub v (fmul LEARN_RATE (Fin 0))) l = l).
  { intro l. rewrite <- (map_id l) at 2. apply map_ext. intro v.
    unfold LEARN_RATE. cbn [fmul]. rewrite Qcmult_0_r.
    unfold fsub. cbn [fneg]. change (- 0)%Qc with 0%Qc. apply fadd_zero_r. }
  exists s'. split; [exact Hit|].
  unfold delta_a0, delta_b0, delta_g0 in Sa, Sb, Sg.
  rewrite firstn_app, firstn_all2, repeat_length, Nat.sub_diag in Sa
    by (rewrite repeat_length; lia).
  cbn [firstn] in Sa. rewrite app_nil_r, map_repeat in Sa.
  rewrite <- Ha in Sa. rewrite zip_with_repeat_r in Sa.
  rewrite skipn_app, skipn_all2, repeat_length, Nat.sub_diag in Sb
    by (rewrite repeat_length; lia).
  cbn [skipn app] in Sb.
  rewrite firstn_app, firstn_all2, repeat_length, Nat.sub_diag in Sb
    by (rewrite repeat_length; lia).
  cbn [firstn] in Sb. rewrite app_nil_r, map_repeat in Sb.
  rewrite <- Hb in Sb. rewrite zip_with_repeat_r, Hz in Sb.
  replace (skipn (2 * F) (repeat (Fin 1) F ++ repeat (Fin 0) F
                            ++ repeat (Fin 0) 256))
    with (repeat (Fin 0) 256) in Sg.
  2:{ rewrite app_assoc, skipn_app, skipn_all2
        by (rewrite length_app, !repeat_length; lia).
      rewrite length_app, !repeat_length.
      replace (2 * F - (F + F)) with 0 by lia. reflexivity. }
  rewrite map_repeat in Sg. rewrite <- Hg in Sg.
  rewrite zip_with_repeat_r, Hz in Sg.
  split.
  - rewrite Sa. apply map_ext. intro v. unfold LEARN_RATE. cbn [fmul].
    now rewrite Qcmult_1_r.
  - split; [exact Sb|]. split; [exact Sg|exact L].
Qed.

(** X16.  With a minimizer that makes no progress and returns its start
    point, one pass of the loop body still lowers every gain by
    [LEARN_RATE] (the start value 1 of [da] is subtracted as a
    correction), and leaves bias and curve as they were. *)
Theorem iteration_unmoved_minimizer (F P : nat) (data : list (list pixel))
    (np_empty : nat -> nat -> fval)
    (minimize : (list fval -> result fval) -> list fval -> result (list fval))
    (plot : state -> result unit) (frames : list (list nat)) (s : state) :
  (forall f x0, minimize f x0 = Ok x0) ->
  frames_wf F P frames -> 0 < F -> 0 < P ->
  map (map green) data = samples frames ->
  length (st_a s) = F -> length (st_b s) = F -> length (st_w s) = F ->
  length (st_g s) = 256 ->
  exists s',
    iteration F P data np_empty minimize plot s = (s', plot s') /\
    st_a s' = map (fun v => fsub v LEARN_RATE) (st_a s) /\
    st_b s' = st_b s /\ st_g s' = st_g s /\
    length (st_a s') = F /\ length (st_b s') = F /\ length (st_w s') = F /\
    length (st_g s') = 256.
Proof. intros. eapply iteration_unmoved; eauto. Qed.

Lemma iteration_unmoved_minimizer_witness :
  exists s',
    iteration 1 2 [[(Fin 0, code 10, Fin 0); (Fin 0, code 20, Fin 0)]]
      (fun _ _ => NaN) (fun _ x0 => Ok x0) (fun _ => Raise TypeError)
      (initial_state 1 2)
    = (s', Raise TypeError) /\
    st_a s' = map (fun v => fsub v LEARN_RATE) (st_a (initial_state 1 2)) /\
    st_b s' = st_b (initial_state 1 2) /\
    st_g s' = st_g (initial_state 1 2) /\
    length (st_a s') = 1 /\ length (st_b s') = 1 /\ length (st_w s') = 1 /\
    length (st_g s') = 256.
Proof.
  apply (@iteration_unmoved_minimizer 1 2
           [[(Fin 0, code 10, Fin 0); (Fin 0, code 20, Fin 0)]]
           (fun _ _ => NaN) (fun _ x0 => Ok x0) (fun _ => Raise TypeError)
           [[10; 20]] (initial_state 1 2)); solve [shape].
Defined.

(** X17.  The statements that end the loop body raise as they are
    written.  With such statements the loop ends in its first pass,
    whatever the iteration count: the exception is the outcome, and the
    globals are those of one update, weights [1 / median_errors] and gain,
    bias and curve lowered by [LEARN_RATE] times the corrections that
    [calc_gradients] returned in that pass. *)
Theorem calibration_loop_stops_at_exception (F P : nat)
    (data : list (list pixel)) (np_empty : nat -> nat -> fval)
    (minimize : (list fval -> result fval) -> list fval -> result (list fval))
    (plot : state -> result unit) (frames : list (list nat)) (s : state)
    (e : exn) :
  minimizer_contract minimize ->
  (forall s', plot s' = Raise e) ->
  frames_wf F P frames -> 0 < F -> 0 < P ->
  map (map green) data = samples frames ->
  length (st_a s) = F -> length (st_b s) = F -> length (st_w s) = F ->
  length (st_g s) = 256 ->
  exists E pool_errors median_errors da db dg s',
    calc_E F (st_g s) (st_w s) (samples frames) (st_b s) (st_a s) = Ok E /\
    calc_e F P np_empty (st_g s) (samples frames) E (st_a s) (st_b s)
    = Ok (pool_errors, median_errors) /\
    calc_gradients F P minimize
      (after_residuals (samples frames) E pool_errors median_errors s)
    = Ok (da, db, dg) /\
    (forall n,
       calibration_loop F P data np_empty minimize plot (S n) s
       = (s', Raise e)) /\
    st_w s' = map (fdiv (Fin 1)) median_errors /\
    st_a s' = zip_with fsub (st_a s) (map (fmul LEARN_RATE) da) /\
    st_b s' = zip_with fsub (st_b s) (map (fmul LEARN_RATE) db) /\
    st_g s' = zip_with fsub (st_g s) (map (fmul LEARN_RATE) dg).
Proof.
  intros Hmin Hplot W HF HP Hdata Ha Hb Hw Hg.
  destruct (@iteration_run F P data np_empty minimize plot frames s)
    as (E & pe & me & x & s' & HE & He & Hx & _ & Hit & Sw & Sa & Sb & Sg & _);
    try assumption.
  exists E, pe, me, (firstn F x), (firstn F (skipn F x)), (skipn (2 * F) x), s'.
  split; [exact HE|]. split; [exact He|]. split.
  { unfold calc_gradients. rewrite start_point. now rewrite Hx. }
  split; [|now repeat split].
  intro n. cbn [calibration_loop]. unfold and_then at 1.
  now rewrite Hit, Hplot.
Qed.

Lemma calibration_loop_stops_at_exception_witness :
  exists E pool_errors median_errors da db dg s',
    calc_E 1 (st_g (initial_state 1 2)) (st_w (initial_state 1 2))
      (samples [[10; 20]]) (st_b (initial_state 1 2))
      (st_a (initial_state 1 2)) = Ok E /\
    calc_e 1 2 (fun _ _ => NaN) (st_g (initial_state 1 2))
      (samples [[10; 20]]) E (st_a (initial_state 1 2))
      (st_b (initial_state 1 2))
    = Ok (pool_errors, median_errors) /\
    calc_gradients 1 2 (fun _ x0 => Ok x0)
      (after_residuals (samples [[10; 20]]) E pool_errors median_errors
         (initial_state 1 2))
    = Ok (da, db, dg) /\
    (forall n,
       calibration_loop 1 2
         [[(Fin 0, code 10, Fin 0); (Fin 0, code 20, Fin 0)]]
         (fun _ _ => NaN) (fun _ x0 => Ok x0) (fun _ => Raise NameError)
         (S n) (initial_state 1 2)
       = (s', Raise NameError)) /\
    st_w s' = map (fdiv (Fin 1)) median_errors /\
    st_a s' = zip_with fsub (st_a (initial_state 1 2))
                (map (fmul LEARN_RATE) da) /\
    st_b s' = zip_with fsub (st_b (initial_state 1 2))
                (map (fmul LEARN_RATE) db) /\
    st_g s' = zip_with fsub (st_g (initial_state 1 2))
                (map (fmul LEARN_RATE) dg).
Proof.
  apply (@calibration_loop_stops_at_exception 1 2
           [[(Fin 0, code 10, Fin 0); (Fin 0, code 20, Fin 0)]]
           (fun _ _ => NaN) (fun _ x0 => Ok x0) (fun _ => Raise NameError)
           [[10; 20]] (initial_state 1 2) NameError); try solve [shape].
  intros f x0 _. exists x0. split; reflexivity.
Defined.

(** ** Loading the frames *)

Lemma stride_from_length {A} (s k : nat) (l : list A) :
  0 < s -> k < s ->
  length (stride_from s k l) = (length l + s - 1 - k) / s.
Proof.
  intro Hs. revert k. induction l as [|x l IH]; intros k Hk; cbn [stride_from length].
  - symmetry. apply Nat.div_small. lia.
  - destruct k as [|k'].
    + cbn [length]. rewrite IH by lia.
      replace (length l + s - 1 - (s - 1)) with (length l) by lia.
      replace (S (length l) + s - 1 - 0) with (1 * s + length l) by lia.
      rewrite Nat.div_add_l by lia. lia.
    + rewrite IH by lia. f_equal. lia.
Qed.

Lemma stride_length {A} (s : positive) (l : list A) :
  length (stride s l) = strided_len (length l) s.
Proof.
  unfold stride, strided_len. rewrite stride_from_length by lia.
  f_equal. lia.
Qed.

Lemma stride_from_nth {A} (s k i : nat) (l : list A) (d : A) :
  0 < s -> k < s ->
  nth i (stride_from s k l) d = nth (k + i * s) l d.
Proof.
  intro Hs. revert k i. induction l as [|x l IH]; intros k i Hk;
    cbn [stride_from].
  - destruct i, (k + _); reflexivity.
  - destruct k as [|k'].
    + destruct i as [|i]; [reflexivity|]. cbn [nth].
      rewrite IH by lia.
      replace (0 + S i * s) with (S (s - 1 + i * s)) by lia. reflexivity.
    + rewrite IH by lia. reflexivity.
Qed.

Lemma stride_nth {A} (s : positive) (i : nat) (l : list A) (d : A) :
  nth i (stride s l) d = nth (i * Pos.to_nat s) l d.
Proof. unfold stride. rewrite stride_from_nth by lia. reflexivity. Qed.

Lemma stride_from_In {A} (s k : nat) (l : list A) (x : A) :
  In x (stride_from s k l) -> In x l.
Proof.
  revert k. induction l as [|y l IH]; intros k H; cbn [stride_from] in H;
    [exact H|].
  destruct k.
  - destruct H as [->|H]; [now left|right; eapply IH; eauto].
  - right. eapply IH; eauto.
Qed.

Lemma strided_len_split (n : nat) (s : positive) :
  strided_len n s
  = n / Pos.to_nat s + (if n mod Pos.to_nat s =? 0 then 0 else 1).
Proof.
  unfold strided_len. set (m := Pos.to_nat s).
  assert (Hm : 0 < m) by (unfold m; lia).
  pose proof (Nat.div_mod_eq n m) as E.
  pose proof (Nat.mod_upper_bound n m ltac:(lia)) as Hr.
  destruct (Nat.eqb_spec (n mod m) 0) as [Z|NZ].
  - rewrite Nat.add_0_r. symmetry.
    apply (Nat.div_unique _ _ _ (m - 1)); lia.
  - symmetry. apply (Nat.div_unique _ _ _ (n mod m - 1)); lia.
Qed.

Lemma strided_len_pos (n : nat) (s : positive) : 0 < n -> 0 < strided_len n s.
Proof.
  intro H. rewrite strided_len_split.
  destruct (Nat.eqb_spec (n mod Pos.to_nat s) 0) as [Z|NZ]; [|lia].
  rewrite Nat.add_0_r.
  pose proof (Nat.div_mod_eq n (Pos.to_nat s)). rewrite Z in *.
  destruct (n / Pos.to_nat s); lia.
Qed.

Lemma concat_length_uniform {A} (ls : list (list A)) (m : nat) :
  Forall (fun l => length l = m) ls -> length (concat ls) = length ls * m.
Proof.
  induction ls as [|l ls IH]; intro H; [reflexivity|].
  apply Forall_cons_iff in H. destruct H as [Hl H].
  cbn [concat length]. rewrite length_app, IH by assumption. lia.
Qed.

Lemma image_rows (h w : nat) (im : image) (row : list rgb) :
  image_wf h w im -> In row (img_rows im) ->
  length row = w /\
  Forall (fun c => fst (fst c) < 256 /\ snd (fst c) < 256 /\ snd c < 256) row.
Proof.
  intros [_ [_ H]] Hin. rewrite Forall_forall in H. now apply H.
Qed.

Lemma subsampled_rows_uniform (h w : nat) (s : positive) (im : image) :
  image_wf h w im ->
  Forall (fun l => length l = strided_len w s)
         (map (stride s) (stride s (img_rows im))).
Proof.
  intro W. apply Forall_forall. intros l Hl. apply in_map_iff in Hl.
  destruct Hl as [row [<- Hrow]]. apply stride_from_In in Hrow.
  rewrite stride_length. now rewrite (proj1 (@image_rows h w im row W Hrow)).
Qed.

Lemma subsampled_length (h w : nat) (s : positive) (im : image) :
  image_wf h w im ->
  length (subsampled s im) = strided_len h s * strided_len w s.
Proof.
  intro W. unfold subsampled. rewrite length_map.
  rewrite (concat_length_uniform (subsampled_rows_uniform s W)).
  rewrite length_map, stride_length. destruct W as [_ [-> _]]. reflexivity.
Qed.

Lemma subsample_reshape_ok (h w : nat) (s : positive) (im : image) :
  image_wf h w im ->
  subsample_reshape (strided_len h s * strided_len w s) s im
  = Ok (subsampled s im).
Proof.
  intro W. unfold subsample_reshape, img_height.
  destruct W as [-> [-> _]]. now rewrite Nat.eqb_refl.
Qed.

Lemma subsample_reshape_refused (h w N : nat) (s : positive) (im : image) :
  image_wf h w im -> strided_len h s * strided_len w s <> N ->
  subsample_reshape N s im = Raise ValueError.
Proof.
  intros W H. unfold subsample_reshape, img_height.
  destruct W as [-> [-> _]].
  destruct (Nat.eqb_spec (strided_len h s * strided_len w s) N);
    [contradiction|reflexivity].
Qed.

Lemma video_loop_fills (N : nat) (s : positive) (frames : list image) :
  (forall im, In im frames -> subsample_reshape N s im = Ok (subsampled s im)) ->
  forall pre mid post, length mid = length frames ->
    video_loop N s (pre ++ mid ++ post) (length pre) frames
    = Ok (pre ++ map (subsampled s) frames ++ post).
Proof.
  induction frames as [|im frames IH]; intros H pre mid post Hm.
  - destruct mid; [reflexivity|discriminate].
  - destruct mid as [|m mid]; [discriminate|]. simpl in Hm.
    cbn [video_loop]. rewrite (H im (or_introl eq_refl)). cbn [bind].
    change (pre ++ (m :: mid) ++ post) with (pre ++ m :: (mid ++ post)).
    rewrite setitem_middle. cbn [bind].
    replace (S (length pre)) with (length (pre ++ [subsampled s im]))
      by (rewrite length_app; simpl; lia).
    replace (pre ++ subsampled s im :: mid ++ post)
      with ((pre ++ [subsampled s im]) ++ mid ++ post)
      by now rewrite <- app_assoc.
    rewrite IH; [|intros; apply H; now right|lia].
    now rewrite <- app_assoc.
Qed.

Lemma green_subsampled (s : positive) (im : image) :
  map green (subsampled s im) = map code (green_codes s im).
Proof.
  unfold subsampled, green_codes. rewrite !map_map. reflexivity.
Qed.

Lemma green_codes_wf (h w : nat) (s : positive) (im : image) :
  image_wf h w im ->
  length (green_codes s im) = strided_len h s * strided_len w s /\
  Forall (fun c => c < 256) (green_codes s im).
Proof.
  intro W. split.
  - unfold green_codes. rewrite length_map.
    etransitivity;
      [exact (concat_length_uniform (subsampled_rows_uniform s W))|].
    rewrite length_map, stride_length. destruct W as [_ [-> _]]. reflexivity.
  - unfold green_codes. apply Forall_forall. intros c Hc.
    apply in_map_iff in Hc. destruct Hc as [px [<- Hpx]].
    apply in_concat in Hpx. destruct Hpx as [l [Hl Hpx]].
    apply in_map_iff in Hl. destruct Hl as [row [<- Hrow]].
    apply stride_from_In in Hrow. apply stride_from_In in Hpx.
    destruct (@image_rows h w im row W Hrow) as [_ Hb].
    rewrite Forall_forall in Hb.
    now apply Hb.
Qed.

Lemma get_images_from_video_value (np_empty_px : nat -> nat -> pixel)
    (frames : list image) (s : positive) (h w : nat) :
  frames <> [] -> Forall (image_wf h w) frames ->
  get_images_from_video np_empty_px (length frames) frames s
  = Ok (map (subsampled s) frames).
Proof.
  intros Hne Hwf. rewrite Forall_forall in Hwf.
  unfold get_images_from_video. destruct frames as [|im0 rest]; [congruence|].
  destruct (Hwf im0 (or_introl eq_refl)) as [Ew [Eh _]].
  unfold img_height. rewrite Ew, Eh.
  pose proof (@video_loop_fills (strided_len h s * strided_len w s) s
                (im0 :: rest)) as L.
  specialize (L ltac:(intros im Him; apply subsample_reshape_ok; auto)).
  specialize (L [] (map (fun i => map (np_empty_px i)
                          (seq 0 (strided_len h s * strided_len w s)))
                        (seq 0 (length (im0 :: rest)))) []).
  rewrite length_map, length_seq in L. specialize (L eq_refl).
  cbn [app length] in L. rewrite !app_nil_r in L. exact L.
Qed.

(** X20.  When the container's frame count is the number of frames read
    and every frame is an [h x w] image, [get_images_from_video] returns
    one frame per image, each of [ceil(h/s) * ceil(w/s) >= 1] pixels, and
    the green channel of the result is a frame set of byte codes of that
    shape: the shape the calibration functions rely on. *)
Theorem get_images_from_video_shape (np_empty_px : nat -> nat -> pixel)
    (frames : list image) (s : positive) (h w : nat) :
  frames <> [] -> Forall (image_wf h w) frames -> 0 < h -> 0 < w ->
  exists data,
    get_images_from_video np_empty_px (length frames) frames s = Ok data /\
    data = map (subsampled s) frames /\
    0 < strided_len h s * strided_len w s /\
    map (map green) data = samples (map (green_codes s) frames) /\
    frames_wf (length frames) (strided_len h s * strided_len w s)
      (map (green_codes s) frames).
Proof.
  intros Hne Hwf Hh Hw. exists (map (subsampled s) frames).
  split; [|split; [reflexivity|split; [|split]]].
  - eapply get_images_from_video_value; eauto.
  - pose proof (strided_len_pos s Hh). pose proof (strided_len_pos s Hw). nia.
  - unfold samples. rewrite !map_map. apply map_ext. intro im.
    apply green_subsampled.
  - rewrite Forall_forall in Hwf.
    split; [now rewrite length_map|]. apply Forall_forall. intros cs Hcs.
    apply in_map_iff in Hcs. destruct Hcs as [im [<- Him]].
    now apply green_codes_wf, Hwf.
Qed.

Lemma get_images_from_video_shape_witness :
  exists data,
    get_images_from_video (fun _ _ => (NaN, NaN, NaN))
      (length [mkImage 3 [[(1, 2, 3); (4, 5, 6); (7, 8, 9)];
                          [(1, 1, 1); (2, 2, 2); (3, 3, 3)]]])
      [mkImage 3 [[(1, 2, 3); (4, 5, 6); (7, 8, 9)];
                  [(1, 1, 1); (2, 2, 2); (3, 3, 3)]]] 2
    = Ok data /\
    data = map (subsampled 2)
             [mkImage 3 [[(1, 2, 3); (4, 5, 6); (7, 8, 9)];
                         [(1, 1, 1); (2, 2, 2); (3, 3, 3)]]] /\
    0 < strided_len 2 2 * strided_len 3 2 /\
    map (map green) data
    = samples (map (green_codes 2)
                 [mkImage 3 [[(1, 2, 3); (4, 5, 6); (7, 8, 9)];
                             [(1, 1, 1); (2, 2, 2); (3, 3, 3)]]]) /\
    frames_wf
      (length [mkImage 3 [[(1, 2, 3); (4, 5, 6); (7, 8, 9)];
                          [(1, 1, 1); (2, 2, 2); (3, 3, 3)]]])
      (strided_len 2 2 * strided_len 3 2)
      (map (green_codes 2)
         [mkImage 3 [[(1, 2, 3); (4, 5, 6); (7, 8, 9)];
                     [(1, 1, 1); (2, 2, 2); (3, 3, 3)]]]).
Proof.
  apply get_images_from_video_shape;
    solve [discriminate | lia | repeat constructor; cbn; lia].
Defined.

(** X21.  [get_images_from_folder] sizes its frames with floor divisions
    but slices with a stride, which rounds up: when the stride divides
    neither the height nor the width of the first image exactly, the
    reshape of that image is refused and the loader raises ValueError. *)
Theorem get_images_from_folder_undivided (im : image) (rest : list image)
    (s : positive) (h w : nat) :
  image_wf h w im -> 0 < h -> 0 < w ->
  h mod Pos.to_nat s <> 0 \/ w mod Pos.to_nat s <> 0 ->
  get_images_from_folder (im :: rest) s = Raise ValueError.
Proof.
  intros W Hh Hw Hnd. unfold get_images_from_folder. cbn [getitem nth_error bind].
  cbn [mapM]. rewrite (@subsample_reshape_refused h w); [reflexivity|exact W|].
  unfold img_height. destruct W as [-> [-> _]].
  pose proof (strided_len_pos s Hh) as Ph. pose proof (strided_len_pos s Hw) as Pw.
  rewrite (strided_len_split h s), (strided_len_split w s) in *.
  destruct (Nat.eqb_spec (h mod Pos.to_nat s) 0);
    destruct (Nat.eqb_spec (w mod Pos.to_nat s) 0); nia.
Qed.

Lemma get_images_from_folder_undivided_witness :
  get_images_from_folder
    [mkImage 3 [[(1, 2, 3); (4, 5, 6); (7, 8, 9)];
                [(1, 1, 1); (2, 2, 2); (3, 3, 3)]]] 2
  = Raise ValueError.
Proof.
  apply (@get_images_from_folder_undivided _ _ 2 2 3);
    try solve [cbn; lia].
  - repeat constructor; cbn; lia.
  - right. vm_compute. discriminate.
Defined.

(** X22.  When the stride divides the height and the width of the images,
    the two loaders agree: [get_images_from_folder] returns the frames
    [get_images_from_video] returns for the same images. *)
Theorem loaders_agree (np_empty_px : nat -> nat -> pixel)
    (files : list image) (s : positive) (h w : nat) :
  files <> [] -> Forall (image_wf h w) files ->
  h mod Pos.to_nat s = 0 -> w mod Pos.to_nat s = 0 ->
  get_images_from_folder files s
  = get_images_from_video np_empty_px (length files) files s /\
  get_images_from_folder files s = Ok (map (subsampled s) files).
Proof.
  intros Hne Hwf Dh Dw.
  rewrite (@get_images_from_video_value np_empty_px files s h w) by assumption.
  assert (E : get_images_from_folder files s = Ok (map (subsampled s) files)).
  { unfold get_images_from_folder. rewrite Forall_forall in Hwf.
    destruct files as [|im0 rest]; [congruence|].
    cbn [getitem nth_error bind].
    destruct (Hwf im0 (or_introl eq_refl)) as [Ew [Eh _]].
    unfold img_height. rewrite Ew, Eh.
    apply mapM_ok. intros im Him.
    replace (h / Pos.to_nat s * (w / Pos.to_nat s))
      with (strided_len h s * strided_len w s).
    - apply subsample_reshape_ok. auto.
    - rewrite !strided_len_split, Dh, Dw. cbn [Nat.eqb]. lia. }
  now split.
Qed.

Lemma loaders_agree_witness :
  get_images_from_folder
    [mkImage 2 [[(1, 2, 3); (4, 5, 6)]; [(1, 1, 1); (2, 2, 2)]]] 2
  = get_images_from_video (fun _ _ => (NaN, NaN, NaN))
      (length [mkImage 2 [[(1, 2, 3); (4, 5, 6)]; [(1, 1, 1); (2, 2, 2)]]])
      [mkImage 2 [[(1, 2, 3); (4, 5, 6)]; [(1, 1, 1); (2, 2, 2)]]] 2 /\
  get_images_from_folder
    [mkImage 2 [[(1, 2, 3); (4, 5, 6)]; [(1, 1, 1); (2, 2, 2)]]] 2
  = Ok (map (subsampled 2)
          [mkImage 2 [[(1, 2, 3); (4, 5, 6)]; [(1, 1, 1); (2, 2, 2)]]]).
Proof.
  apply (@loaders_agree _ _ 2 2 2); try discriminate; try reflexivity.
  repeat constructor; cbn; lia.
Defined.

Lemma video_loop_overflow (N : nat) (s : positive) (frames : list image) :
  (forall im, In im frames -> subsample_reshape N s im = Ok (subsampled s im)) ->
  forall pre mid, length mid < length frames ->
    video_loop N s (pre ++ mid) (length pre) frames = Raise IndexError.
Proof.
  induction frames as [|im frames IH]; intros H pre mid Hm;
    [simpl in Hm; lia|].
  cbn [video_loop]. rewrite (H im (or_introl eq_refl)). cbn [bind].
  destruct mid as [|m mid].
  - rewrite app_nil_r. unfold setitem. now rewrite Nat.ltb_irrefl.
  - rewrite setitem_middle. cbn [bind].
    replace (S (length pre)) with (length (pre ++ [subsampled s im]))
      by (rewrite length_app; simpl; lia).
    replace (pre ++ subsampled s im :: mid)
      with ((pre ++ [subsampled s im]) ++ mid) by now rewrite <- app_assoc.
    apply IH; [intros; apply H; now right|simpl in Hm; lia].
Qed.

(** X23.  When the container announces fewer frames than [vidcap.read()]
    delivers, [get_images_from_video] raises IndexError at the first frame
    beyond the announced count. *)
Theorem get_images_from_video_too_many_frames
    (np_empty_px : nat -> nat -> pixel) (frame_count : nat)
    (frames : list image) (s : positive) (h w : nat) :
  Forall (image_wf h w) frames -> frame_count < length frames ->
  get_images_from_video np_empty_px frame_count frames s = Raise IndexError.
Proof.
  intros Hwf Hc. rewrite Forall_forall in Hwf.
  unfold get_images_from_video.
  destruct frames as [|im0 rest]; [simpl in Hc; lia|].
  destruct (Hwf im0 (or_introl eq_refl)) as [Ew [Eh _]].
  unfold img_height. rewrite Ew, Eh.
  pose proof (@video_loop_overflow (strided_len h s * strided_len w s) s
                (im0 :: rest)
                ltac:(intros im Him; apply subsample_reshape_ok; auto) []
                (map (fun i => map (np_empty_px i)
                        (seq 0 (strided_len h s * strided_len w s)))
                   (seq 0 frame_count))) as L.
  rewrite length_map, length_seq in L. exact (L Hc).
Qed.

Lemma get_images_from_video_too_many_frames_witness :
  get_images_from_video (fun _ _ => (NaN, NaN, NaN)) 0
    [mkImage 2 [[(1, 2, 3); (4, 5, 6)]; [(1, 1, 1); (2, 2, 2)]]] 2
  = Raise IndexError.
Proof.
  apply (@get_images_from_video_too_many_frames _ _ _ _ 2 2);
    [repeat constructor; cbn; lia|cbn; lia].
Defined.

(** X24.  When the container announces more frames than are read, the
    result still has the announced number of frames (this is the
    [num_files] of the notebook): the frames read come first, and the
    rest keep the content the fresh array happened to hold. *)
Theorem get_images_from_video_unread_frames
    (np_empty_px : nat -> nat -> pixel) (frame_count : nat)
    (frames : list image) (s : positive) (h w : nat) :
  frames <> [] -> Forall (image_wf h w) frames ->
  length frames <= frame_count ->
  exists data,
    get_images_from_video np_empty_px frame_count frames s = Ok data /\
    length data = frame_count /\
    firstn (length frames) data = map (subsampled s) frames /\
    forall i, length frames <= i < frame_count ->
      nth_error data i
      = Some (map (np_empty_px i)
                (seq 0 (strided_len h s * strided_len w s))).
Proof.
  intros Hne Hwf Hc. rewrite Forall_forall in Hwf.
  set (N := strided_len h s * strided_len w s).
  assert (Hfill : forall im, In im frames ->
            subsample_reshape N s im = Ok (subsampled s im))
    by (intros im Him; apply subsample_reshape_ok; auto).
  assert (Hshape : forall im0 rest, frames = im0 :: rest ->
            strided_len (img_height im0) s * strided_len (img_width im0) s = N).
  { intros im0 rest Ef.
    destruct (Hwf im0 ltac:(rewrite Ef; now left)) as [Ew [Eh _]].
    unfold img_height. now rewrite Ew, Eh. }
  exists (map (subsampled s) frames
          ++ map (fun i => map (np_empty_px i) (seq 0 N))
               (seq (length frames) (frame_count - length frames))).
  split; [|split; [|split]].
  - pose proof (@video_loop_fills N s frames Hfill []
                  (map (fun i => map (np_empty_px i) (seq 0 N))
                     (seq 0 (length frames)))
                  (map (fun i => map (np_empty_px i) (seq 0 N))
                     (seq (length frames) (frame_count - length frames)))) as L.
    rewrite length_map, length_seq in L. specialize (L eq_refl).
    cbn [app length] in L. rewrite <- map_app, <- seq_app in L.
    replace (length frames + (frame_count - length frames))
      with frame_count in L by lia.
    unfold get_images_from_video.
    destruct frames as [|im0 rest]; [congruence|].
    rewrite (Hshape im0 rest eq_refl). exact L.
  - rewrite length_app, !length_map, length_seq. lia.
  - rewrite firstn_app, length_map, Nat.sub_diag.
    cbn [firstn]. rewrite app_nil_r. apply firstn_all2.
    rewrite length_map. lia.
  - intros i Hi. rewrite nth_error_app2 by (rewrite length_map; lia).
    rewrite length_map, nth_error_map, nth_error_seq.
    destruct (Nat.ltb_spec (i - length frames) (frame_count - length frames));
      [|lia].
    cbn [option_map]. do 3 f_equal. lia.
Qed.

Lemma get_images_from_video_unread_frames_witness :
  exists data,
    get_images_from_video (fun _ _ => (NaN, NaN, NaN)) 3
      [mkImage 2 [[(1, 2, 3); (4, 5, 6)]; [(1, 1, 1); (2, 2, 2)]]] 2
    = Ok data /\
    length data = 3 /\
    firstn (length [mkImage 2 [[(1, 2, 3); (4, 5, 6)];
                               [(1, 1, 1); (2, 2, 2)]]]) data
    = map (subsampled 2)
        [mkImage 2 [[(1, 2, 3); (4, 5, 6)]; [(1, 1, 1); (2, 2, 2)]]] /\
    forall i,
      length [mkImage 2 [[(1, 2, 3); (4, 5, 6)]; [(1, 1, 1); (2, 2, 2)]]]
      <= i < 3 ->
      nth_error data i
      = Some (map ((fun _ _ => (NaN, NaN, NaN)) i)
                (seq 0 (strided_len 2 2 * strided_len 2 2))).
Proof.
  apply (@get_images_from_video_unread_frames _ 3 _ 2 2 2);
    [discriminate|repeat constructor; cbn; lia|cbn; lia].
Defined.

Lemma nth_concat_uniform {A} (ls : list (list A)) (m q : nat) (d : A) :
  0 < m -> Forall (fun l => length l = m) ls -> q < length ls * m ->
  nth q (concat ls) d = nth (q mod m) (nth (q / m) ls []) d.
Proof.
  intros Hm. revert q. induction ls as [|l ls IH]; intros q Hall Hq;
    [simpl in Hq; lia|].
  apply Forall_cons_iff in Hall. destruct Hall as [Hl Hall].
  cbn [concat]. destruct (Nat.lt_ge_cases q m) as [Lt|Ge].
  - rewrite app_nth1 by lia.
    rewrite Nat.div_small, Nat.mod_small by assumption. reflexivity.
  - rewrite app_nth2 by lia. rewrite Hl.
    assert (Eq : q = (q - m) + 1 * m) by lia.
    rewrite IH; [|assumption|simpl in Hq; lia].
    rewrite Eq at 3 4. rewrite Nat.div_add, Nat.Div0.mod_add by lia.
    replace ((q - m) / m + 1) with (S ((q - m) / m)) by lia. reflexivity.
Qed.

(** X25.  Pixel [q] of a loaded frame is the image pixel in row
    [s * (q / W)] and column [s * (q mod W)], [W = ceil(w/s)] being the
    number of columns kept: the loaders keep every [s]-th row and column,
    starting with the first, in row-major order. *)
Theorem subsampled_pixel (h w : nat) (s : positive) (im : image) (q : nat) :
  image_wf h w im -> q < strided_len h s * strided_len w s ->
  subsample_reshape (strided_len h s * strided_len w s) s im
  = Ok (subsampled s im) /\
  nth_error (subsampled s im) q
  = Some (to_pixel
            (nth (q mod strided_len w s * Pos.to_nat s)
               (nth (q / strided_len w s * Pos.to_nat s) (img_rows im) [])
               (0, 0, 0))).
Proof.
  intros W Hq. split; [now apply subsample_reshape_ok|].
  assert (Hw : 0 < strided_len w s) by nia.
  assert (Hlen : length (concat (map (stride s) (stride s (img_rows im))))
                 = strided_len h s * strided_len w s).
  { etransitivity;
      [exact (concat_length_uniform (subsampled_rows_uniform s W))|].
    rewrite length_map, stride_length. destruct W as [_ [-> _]]. reflexivity. }
  unfold subsampled. rewrite nth_error_map.
  rewrite (nth_error_nth' _ (0, 0, 0))
    by (eapply Nat.lt_le_trans; [exact Hq|];
        apply Nat.eq_le_incl; symmetry; exact Hlen).
  cbn [option_map]. do 2 f_equal.
  rewrite (@nth_concat_uniform _ _ (strided_len w s));
    [|assumption|exact (subsampled_rows_uniform s W)|].
  - rewrite (nth_map_lt (stride s) (stride s (img_rows im)) [] []).
    + rewrite !stride_nth. reflexivity.
    + rewrite stride_length. destruct W as [_ [-> _]].
      apply Nat.Div0.div_lt_upper_bound. lia.
  - rewrite length_map, stride_length. destruct W as [_ [-> _]]. exact Hq.
Qed.

Lemma subsampled_pixel_witness :
  subsample_reshape (strided_len 2 2 * strided_len 3 2) 2
    (mkImage 3 [[(1, 2, 3); (4, 5, 6); (7, 8, 9)];
                [(1, 1, 1); (2, 2, 2); (3, 3, 3)]])
  = Ok (subsampled 2
          (mkImage 3 [[(1, 2, 3); (4, 5, 6); (7, 8, 9)];
                      [(1, 1, 1); (2, 2, 2); (3, 3, 3)]])) /\
  nth_error
    (subsampled 2
       (mkImage 3 [[(1, 2, 3); (4, 5, 6); (7, 8, 9)];
                   [(1, 1, 1); (2, 2, 2); (3, 3, 3)]])) 1
  = Some (to_pixel
            (nth (1 mod strided_len 3 2 * Pos.to_nat 2)
               (nth (1 / strided_len 3 2 * Pos.to_nat 2)
                  (img_rows
                     (mkImage 3 [[(1, 2, 3); (4, 5, 6); (7, 8, 9)];
                                 [(1, 1, 1); (2, 2, 2); (3, 3, 3)]])) [])
               (0, 0, 0))).
Proof.
  apply (@subsampled_pixel 2 3);
    [repeat constructor; cbn; lia|vm_compute; lia].
Defined.

(** ** From the loader to the first pass *)

Lemma loaded_frames_wf (frames : list image) (s : positive) (h w : nat) :
  Forall (image_wf h w) frames ->
  frames_wf (length frames) (strided_len h s * strided_len w s)
    (map (green_codes s) frames).
Proof.
  intro Hwf. rewrite Forall_forall in Hwf.
  split; [now rewrite length_map|]. apply Forall_forall. intros cs Hcs.
  apply in_map_iff in Hcs. destruct Hcs as [im [<- Him]].
  now apply green_codes_wf, Hwf.
Qed.

Lemma loaded_green_channel (frames : list image) (s : positive) :
  map (map green) (map (subsampled s) frames)
  = samples (map (green_codes s) frames).
Proof.
  unfold samples. rewrite !map_map. apply map_ext. intro im.
  apply green_subsampled.
Qed.

(** X26.  A video of at least one frame, all of one size of at least one
    pixel, loads into data on which the first pass of the loop, started
    from the globals of the first cell with [num_files = data.shape[0]]
    and [num_pixels = data.shape[1]], raises nothing before the plotting
    statements: the loader provides the shapes the calibration functions
    need. *)
Theorem video_to_first_pass (np_empty_px : nat -> nat -> pixel)
    (np_empty : nat -> nat -> fval)
    (minimize : (list fval -> result fval) -> list fval -> result (list fval))
    (plot : state -> result unit)
    (frames : list image) (s : positive) (h w : nat) :
  minimizer_contract minimize ->
  frames <> [] -> Forall (image_wf h w) frames -> 0 < h -> 0 < w ->
  exists data s',
    get_images_from_video np_empty_px (length frames) frames s = Ok data /\
    iteration (length data) (length (nth 0 data [])) data np_empty minimize
      plot (initial_state (length data) (length (nth 0 data [])))
    = (s', plot s') /\
    length (st_a s') = length data /\ length (st_g s') = 256.
Proof.
  intros Hmin Hne Hwf Hh Hw.
  set (P := strided_len h s * strided_len w s).
  assert (HP : 0 < P).
  { pose proof (strided_len_pos s Hh). pose proof (strided_len_pos s Hw).
    unfold P. nia. }
  assert (HF : 0 < length frames) by (destruct frames; [congruence|simpl; lia]).
  assert (Hrow : length (nth 0 (map (subsampled s) frames) []) = P).
  { destruct frames as [|im0 rest]; [congruence|]. cbn [map nth].
    rewrite Forall_forall in Hwf.
    apply (@subsampled_length h w). apply Hwf. now left. }
  destruct (@iteration_run (length frames) P (map (subsampled s) frames)
              np_empty minimize plot (map (green_codes s) frames)
              (initial_state (length frames) P))
    as (E & pe & me & x & s' & _ & _ & _ & _ & Hit & _ & _ & _ & _ & La & _
        & _ & Lg);
    try assumption.
  - now apply loaded_frames_wf.
  - apply loaded_green_channel.
  - apply repeat_length.
  - apply repeat_length.
  - apply repeat_length.
  - apply identity_curve_length.
  - exists (map (subsampled s) frames), s'.
    rewrite Hrow, length_map.
    split; [eapply get_images_from_video_value; eauto|].
    split; [exact Hit|]. split; assumption.
Qed.

Lemma video_to_first_pass_witness :
  exists data s',
    get_images_from_video (fun _ _ => (NaN, NaN, NaN))
      (length [mkImage 2 [[(1, 2, 3); (4, 5, 6)]; [(1, 1, 1); (2, 2, 2)]]])
      [mkImage 2 [[(1, 2, 3); (4, 5, 6)]; [(1, 1, 1); (2, 2, 2)]]] 1
    = Ok data /\
    iteration (length data) (length (nth 0 data [])) data (fun _ _ => NaN)
      (fun _ x0 => Ok x0) (fun _ => Raise TypeError)
      (initial_state (length data) (length (nth 0 data [])))
    = (s', (fun _ => Raise TypeError) s') /\
    length (st_a s') = length data /\ length (st_g s') = 256.
Proof.
  apply (@video_to_first_pass _ _ _ _ _ 1 2 2);
    try solve [discriminate | lia | repeat constructor; cbn; lia].
  intros f x0 _. exists x0. split; reflexivity.
Defined.
